(** * dfttk.structure_builders.sqs_db: ATAT lattice files, abstract SQS, and
      the database matcher.

    A shallow embedding of [sqs_db.py].  Python values are modelled as
    follows.
    - [str] is a list of Unicode code points ([list N]); literals are written
      [py "a_B"].
    - [int] is [Z].
    - A raised exception is the [Raise] branch of [result]; the two
      [NotImplementedError]s of [lat_in_to_sqs] are told apart by their
      message.
    - The [dict] of [set]s that [lat_in_to_sqs] grows is a [gmap] of [gset]s;
      [sorted] is a merge sort for the code-point order of [str].
    - pymatgen's [Lattice], numpy's [dot] and [float] are an interface
      ([Crystallography]): the module only passes their values along. *)

From Stdlib Require Import ZArith NArith List String Ascii Lia Permutation.
From stdpp Require Import base option list sorting gmap.

Local Open Scope string_scope.
Local Open Scope list_scope.
Local Open Scope Z_scope.

(** ** Python values *)

Abbreviation pystr := (list N).

Definition py (s : string) : pystr :=
  List.map N_of_ascii (list_ascii_of_string s).

Arguments py s%_string.

Inductive NotImplemented_message : Type :=
| sublattice_is_unclear   (* 'Cannot parse atom list ... because the sublattice is unclear.' *)
| name_may_be_ambigous.   (* 'Cannot rename because the atom name and sublattice name may be ambigous.' *)

Inductive exn : Type :=
| NotImplementedError (m : NotImplemented_message)
| IndexError
| ValueError
| ZeroDivisionError
| OverflowError
| ParseException.

Inductive result (A : Type) : Type :=
| Ok (a : A)
| Raise (e : exn).

Arguments Ok {A} a.
Arguments Raise {A} e.

(** Sequencing: [x ← r; k] runs [k] unless [r] raised. *)
#[global] Instance result_bind : MBind result := fun A B k r =>
  match r with
  | Ok a => k a
  | Raise e => Raise e
  end.

Definition is_Ok {A : Type} (r : result A) : Prop :=
  match r with Ok _ => True | Raise _ => False end.

(** [[f(x) for x in l]]: elements are evaluated left to right and the first
    exception aborts the comprehension. *)
Fixpoint mapM {A B : Type} (f : A -> result B) (l : list A) : result (list B) :=
  match l with
  | [] => Ok []
  | a :: l' => b ← f a; bs ← mapM f l'; Ok (b :: bs)
  end.

(** *** Characters *)

Definition cp (c : ascii) : N := N_of_ascii c.

Arguments cp c%_char.

Definition is_digit (c : N) : bool := ((48 <=? c) && (c <=? 57))%N.
Definition is_upper (c : N) : bool := ((65 <=? c) && (c <=? 90))%N.
Definition is_lower (c : N) : bool := ((97 <=? c) && (c <=? 122))%N.
Definition is_alpha (c : N) : bool := is_upper c || is_lower c.
Definition is_alphanum_ (c : N) : bool := is_alpha c || is_digit c || (c =? 95)%N.

(** [str.lower()].  Exact on ASCII, which is all the grammar lets into a
    label token ([Word(alphas, alphanums + '_')]); other code points are
    left as they are. *)
Definition lower_char (c : N) : N := if is_upper c then (c + 32)%N else c.
Definition lower (s : pystr) : pystr := List.map lower_char s.

(** [s.split(sep)] for a one-character separator: never an empty list. *)
Fixpoint split (sep : N) (s : pystr) : list pystr :=
  match s with
  | [] => [[]]
  | c :: s' =>
      if (c =? sep)%N then [] :: split sep s'
      else match split sep s' with
           | [] => [[c]]
           | w :: ws => (c :: w) :: ws
           end
  end.

(** [re.findall("\d+", s)]: the maximal digit runs, left to right. *)
Fixpoint findall_digits_aux (s : pystr) (run : pystr) : list pystr :=
  match s with
  | [] => match run with [] => [] | _ => [rev run] end
  | c :: s' =>
      if is_digit c then findall_digits_aux s' (c :: run)
      else match run with
           | [] => findall_digits_aux s' []
           | _ => rev run :: findall_digits_aux s' []
           end
  end.

Definition findall_digits (s : pystr) : list pystr := findall_digits_aux s [].

(** [int(s)] on a run of ASCII digits (the limit that recent versions of
    CPython put on the number of digits is left out). *)
Definition int (s : pystr) : Z :=
  fold_left (fun acc c => 10 * acc + (Z.of_N c - 48)) s 0.

(** [chr(i)]: the one-character string, [ValueError] outside
    [range(0x110000)], [OverflowError] when the argument does not fit a C
    int. *)
Definition chr (i : Z) : result pystr :=
  if (0 <=? i) && (i <? 1114112) then Ok [Z.to_N i]
  else if (-2147483648 <=? i) && (i <=? 2147483647) then Raise ValueError
  else Raise OverflowError.

Fixpoint is_prefix (p s : pystr) : bool :=
  match p, s with
  | [], _ => true
  | _ :: _, [] => false
  | a :: p', b :: s' => (a =? b)%N && is_prefix p' s'
  end.

(** [s.replace(old, new)]: every non-overlapping occurrence of [old], found
    scanning from the left.  [skip] counts the characters of an occurrence
    that is being skipped over. *)
Fixpoint replace_aux (old new : pystr) (skip : nat) (s : pystr) : pystr :=
  match s with
  | [] => []
  | c :: s' =>
      match skip with
      | S k => replace_aux old new k s'
      | O =>
          if is_prefix old s
          then new ++ replace_aux old new (Nat.pred (length old)) s'
          else c :: replace_aux old new O s'
      end
  end.

Definition replace (old new s : pystr) : pystr :=
  match old with
  | [] => new ++ flat_map (fun c => c :: new) s
  | _ => replace_aux old new O s
  end.

(** *** [sorted] on strings *)

Fixpoint str_leb (x y : pystr) : bool :=
  match x, y with
  | [], _ => true
  | _ :: _, [] => false
  | a :: x', b :: y' =>
      if (a <? b)%N then true
      else if (a =? b)%N then str_leb x' y' else false
  end.

Definition str_le (x y : pystr) : Prop := str_leb x y = true.

#[global] Instance str_le_dec : RelDecision str_le.
Proof. intros x y. unfold str_le. exact (decide (str_leb x y = true)). Defined.

Definition sorted (l : list pystr) : list pystr := merge_sort str_le l.

(** [l[i]]: [IndexError] out of range. *)
Definition getitem {A : Type} (l : list A) (i : nat) : result A :=
  match l !! i with
  | Some x => Ok x
  | None => Raise IndexError
  end.

(** [subl_model[subl] = subl_model.get(subl, set()).union({subl_atom})] *)
Definition add_species (m : gmap pystr (gset pystr)) (subl subl_atom : pystr)
    : gmap pystr (gset pystr) :=
  <[subl := default ∅ (m !! subl) ∪ {[subl_atom]}]> m.

(** ** The collaborators: floats and pymatgen's Lattice *)

Class Crystallography : Type := {
  float : Type;
  (** [float(t[0])], the parse action of [float_number] *)
  float_of_str : pystr -> float;
  (** a 3x3 numpy array *)
  matrix : Type;
  (** [Lattice(rows).matrix] *)
  Lattice_matrix : list (list float) -> matrix;
  (** [Lattice.from_parameters(a, b, c, alpha, beta, gamma).matrix] *)
  Lattice_from_parameters_matrix :
    float -> float -> float -> float -> float -> float -> matrix;
  (** [m1.dot(m2)] *)
  dot : matrix -> matrix -> matrix
}.

Section Structures.
Context `{Crystallography}.

(** ** The parse tree of [_parse_atat_lattice] *)

(** [Group(float_number + float_number + float_number)] *)
Definition vector : Type := float * float * float.

Definition list_of_vector (v : vector) : list float :=
  let '(x, y, z) := v in [x; y; z].

(** The coordinate-system group holds three vectors (first alternative of
    the grammar) or two (second alternative); [lat_in_to_sqs] tells them
    apart by [len(atat_coord_system) == 3]. *)
Inductive coord_sys_group : Type :=
| coord_matrix (v1 v2 v3 : vector)
| coord_lengths_angles (lengths angles : vector).


Record parsed_data : Type := {
  atat_coord_system : coord_sys_group;
  atat_lattice : vector * vector * vector;
  (** each atom is [[position, [token, ...]]] *)
  atat_atoms : list (vector * list pystr)
}.

(** Modelled from the spec: the class [AbstractSQS] of
    [dfttk.structure_builders.sqs] is not part of this module; this is the
    AbstractStructureDescriptor of the data model, holding what
    [lat_in_to_sqs] passes to the constructor (with
    [coords_are_cartesian=True]) and the lattice it assigns afterwards.  What
    the constructor itself checks is not modelled. *)
Record AbstractSQS : Type := {
  direct_lattice : matrix;
  lattice : matrix;
  species : list pystr;
  coords : list (list float);
  sublattice_model : list (list pystr);
  sublattice_names : list pystr
}.

(** ** [lat_in_to_sqs] *)

(** What the [for] loop over the atoms grows. *)
Record loop_state : Type := {
  species_list : list pystr;
  species_positions : list (list float);
  subl_model : gmap pystr (gset pystr)
}.

Definition loop_init : loop_state :=
  {| species_list := []; species_positions := []; subl_model := ∅ |}.

(** [for rep_item in rep_items: subl = subl.replace(rep_item, chr(96 + int(rep_item)))] *)
Fixpoint replace_items (rep_items : list pystr) (subl : pystr) : result pystr :=
  match rep_items with
  | [] => Ok subl
  | rep_item :: rep_items' =>
      letter ← chr (96 + int rep_item);
      replace_items rep_items' (replace rep_item letter subl)
  end.

(** The sublattice name of a decoded label: digits replaced by letters. *)
Definition translate_digits (subl : pystr) : result pystr :=
  replace_items (findall_digits subl) subl.

(** Lines 96-111 of the loop body: from the tokens of an atom to its
    sublattice name and its species. *)
Definition decode_label (rename : bool) (atoms : list pystr) : result (pystr * pystr) :=
  if (1 <? length atoms)%nat then Raise (NotImplementedError sublattice_is_unclear)
  else
    atom ← getitem atoms 0;
    atom ← (if rename then Ok (split (cp "_") (lower atom))
            else Raise (NotImplementedError name_may_be_ambigous));
    subl ← getitem atom 0;
    subl ← translate_digits subl;
    subl_atom ← getitem atom 1;
    Ok (subl, subl_atom).

(** Lines 112-115: the sublattice model, the species and the positions grow. *)
Definition record_atom (st : loop_state) (position : vector)
    (subl subl_atom : pystr) : loop_state :=
  {| subl_model := add_species (subl_model st) subl subl_atom;
     species_list := species_list st ++ [py "X" ++ subl ++ subl_atom];
     species_positions := species_positions st ++ [list_of_vector position] |}.

(** One pass of the loop body (lines 94-115). *)
Definition loop_body (rename : bool) (st : loop_state)
    (record : vector * list pystr) : result loop_state :=
  let '(position, atoms) := record in
  '(subl, subl_atom) ← decode_label rename atoms;
  Ok (record_atom st position subl subl_atom).

Fixpoint for_atoms (rename : bool) (st : loop_state)
    (atoms : list (vector * list pystr)) : result loop_state :=
  match atoms with
  | [] => Ok st
  | record :: atoms' => st' ← loop_body rename st record; for_atoms rename st' atoms'
  end.

(** [sorted(subl_model.keys())] *)
Definition sorted_keys (m : gmap pystr (gset pystr)) : list pystr :=
  sorted (elements (dom m)).

(** The body of [lat_in_to_sqs] after the parse (lines 75-125). *)
Definition sqs_of_parsed_data (parsed : parsed_data) (rename : bool) : result AbstractSQS :=
  let coord_system :=
    match atat_coord_system parsed with
    | coord_matrix v1 v2 v3 =>
        Lattice_matrix [list_of_vector v1; list_of_vector v2; list_of_vector v3]
    | coord_lengths_angles (lat_a, lat_b, lat_c) (lat_alpha, lat_beta, lat_gamma) =>
        Lattice_from_parameters_matrix lat_a lat_b lat_c lat_alpha lat_beta lat_gamma
    end in
  let '(l1, l2, l3) := atat_lattice parsed in
  let direct := Lattice_matrix [list_of_vector l1; list_of_vector l2; list_of_vector l3] in
  let effective := dot coord_system direct in
  st ← for_atoms rename loop_init (atat_atoms parsed);
  Ok {| direct_lattice := direct;
        lattice := effective;
        species := species_list st;
        coords := species_positions st;
        sublattice_model :=
          List.map (fun s => sorted (elements (subl_model st !!! s)))
                   (sorted_keys (subl_model st));
        sublattice_names := sorted_keys (subl_model st) |}.

End Structures.

(** ** The pieces of [re] and pyparsing that the grammar uses *)

(** Regular expressions over character classes, matched the way [re]
    matches: greedy, and backtracking into an earlier choice when what
    follows fails.  [k] is what remains to be matched; [n] counts the
    characters consumed so far. *)
Inductive regex : Type :=
| Class (p : N -> bool)       (* [...] *)
| Cat (r1 r2 : regex)         (* r1 r2 *)
| Opt (r : regex)             (* r? *)
| Star (p : N -> bool)        (* [...]* *)
| Plus (p : N -> bool).       (* [...]+ *)

Fixpoint star_match (p : N -> bool) (s : pystr) (n : nat)
    (k : pystr -> nat -> option nat) : option nat :=
  match s with
  | c :: s' =>
      if p c then
        match star_match p s' (S n) k with
        | Some r => Some r
        | None => k s n
        end
      else k s n
  | [] => k s n
  end.

Fixpoint re_match (r : regex) (s : pystr) (n : nat)
    (k : pystr -> nat -> option nat) : option nat :=
  match r with
  | Class p =>
      match s with
      | c :: s' => if p c then k s' (S n) else None
      | [] => None
      end
  | Cat r1 r2 => re_match r1 s n (fun s' n' => re_match r2 s' n' k)
  | Opt r1 =>
      match re_match r1 s n k with
      | Some x => Some x
      | None => k s n
      end
  | Star p => star_match p s n k
  | Plus p =>
      match s with
      | c :: s' => if p c then star_match p s' (S n) k else None
      | [] => None
      end
  end.

(** [re.match(s)]: the length of the match at the start of [s]. *)
Definition re_match_length (r : regex) (s : pystr) : option nat :=
  re_match r s O (fun _ n => Some n).

Definition one_of (chars : string) (c : N) : bool :=
  existsb (N.eqb c) (py chars).

Arguments one_of chars%_string c.

(** [r'[-+]?[0-9]*\.?[0-9]+([eE][-+]?[0-9]+)?'] *)
Definition float_regex : regex :=
  Cat (Opt (Class (one_of "-+")))
   (Cat (Star is_digit)
    (Cat (Opt (Class (one_of ".")))
     (Cat (Plus is_digit)
          (Opt (Cat (Class (one_of "eE"))
                (Cat (Opt (Class (one_of "-+"))) (Plus is_digit))))))).

(** [s.expandtabs()], which [parseString] applies to its input: a tab
    becomes spaces up to the next multiple of 8, columns restart after a
    line feed or a carriage return. *)
Fixpoint expandtabs_aux (s : pystr) (col : nat) : pystr :=
  match s with
  | [] => []
  | c :: s' =>
      if (c =? 9)%N then
        List.repeat 32%N (8 - col mod 8) ++ expandtabs_aux s' O
      else if (c =? 10)%N || (c =? 13)%N then c :: expandtabs_aux s' O
      else c :: expandtabs_aux s' (S col)
  end.

Definition expandtabs (s : pystr) : pystr := expandtabs_aux s O.

(** A pyparsing element: from the input and a location to the new location
    and the tokens, or [None] for a ParseException. *)
Definition parser (A : Type) : Type := pystr -> nat -> option (nat * A).

(** [DEFAULT_WHITE_CHARS] is " \n\t\r"; [LineEnd] skips the same without
    the line feed. *)
Definition default_white (c : N) : bool :=
  (c =? 32)%N || (c =? 10)%N || (c =? 9)%N || (c =? 13)%N.
Definition lineend_white (c : N) : bool :=
  (c =? 32)%N || (c =? 9)%N || (c =? 13)%N.

Fixpoint span_length (p : N -> bool) (s : pystr) : nat :=
  match s with
  | c :: s' => if p c then S (span_length p s') else O
  | [] => O
  end.

(** [preParse]: skip the element's white characters. *)
Definition preParse (white : N -> bool) (instring : pystr) (loc : nat) : nat :=
  (loc + span_length white (drop loc instring))%nat.

Definition Regex (r : regex) : parser pystr := fun instring loc =>
  let preloc := preParse default_white instring loc in
  match re_match_length r (drop preloc instring) with
  | Some n => Some ((preloc + n)%nat, take n (drop preloc instring))
  | None => None
  end.

(** [Word(alphas, alphanums + '_')] *)
Definition Word_label : parser pystr := fun instring loc =>
  let preloc := preParse default_white instring loc in
  match drop preloc instring with
  | c :: rest =>
      if is_alpha c then
        let n := S (span_length is_alphanum_ rest) in
        Some ((preloc + n)%nat, take n (drop preloc instring))
      else None
  | [] => None
  end.

(** [Suppress(LineEnd())]: a line feed at the location, or the end of the
    input, after which the location is one past the end. *)
Definition LineEnd : parser unit := fun instring loc =>
  let preloc := preParse lineend_white instring loc in
  if (preloc <? length instring)%nat then
    match instring !! preloc with
    | Some c => if (c =? 10)%N then Some (S preloc, tt) else None
    | None => None
    end
  else if (preloc =? length instring)%nat then Some (S preloc, tt)
  else None.

(** The repetition of [OneOrMore]: match until the element fails.  Every
    element repeated here consumes input, so [fuel] the length of the input
    is never used up ([ZeroOrMore_fuel_enough]). *)
Fixpoint ZeroOrMore_fuel {A : Type} (fuel : nat) (p : parser A)
    (instring : pystr) (loc : nat) : nat * list A :=
  match fuel with
  | O => (loc, [])
  | S fuel' =>
      match p instring loc with
      | None => (loc, [])
      | Some (loc', a) =>
          let '(loc'', l) := ZeroOrMore_fuel fuel' p instring loc' in
          (loc'', a :: l)
      end
  end.

Definition OneOrMore {A : Type} (p : parser A) : parser (list A) :=
  fun instring loc =>
    '(loc', a) ← p instring loc;
    let '(loc'', l) := ZeroOrMore_fuel (length instring) p instring loc' in
    Some (loc'', a :: l).

Section Grammar.
Context `{Crystallography}.

(** ** [_parse_atat_lattice] *)

Definition float_number : parser float := fun instring loc =>
  '(loc', t) ← Regex float_regex instring loc;
  Some (loc', float_of_str t).

Definition vector_ : parser vector := fun instring loc =>
  '(loc1, x) ← float_number instring loc;
  '(loc2, y) ← float_number instring loc1;
  '(loc3, z) ← float_number instring loc2;
  Some (loc3, (x, y, z)).

Definition angles : parser vector := vector_.

Definition vector_line : parser vector := fun instring loc =>
  '(loc1, v) ← vector_ instring loc;
  '(loc2, _) ← LineEnd instring loc1;
  Some (loc2, v).

(** [vector_line + vector_line + vector_line] *)
Definition coord_sys_first : parser coord_sys_group := fun instring loc =>
  '(loc1, v1) ← vector_line instring loc;
  '(loc2, v2) ← vector_line instring loc1;
  '(loc3, v3) ← vector_line instring loc2;
  Some (loc3, coord_matrix v1 v2 v3).

(** [vector + angles + Suppress(LineEnd())] *)
Definition coord_sys_second : parser coord_sys_group := fun instring loc =>
  '(loc1, v) ← vector_ instring loc;
  '(loc2, a) ← angles instring loc1;
  '(loc3, _) ← LineEnd instring loc2;
  Some (loc3, coord_lengths_angles v a).

(** [Group(first | second)]: MatchFirst returns the first alternative that
    matches. *)
Definition coord_sys : parser coord_sys_group := fun instring loc =>
  match coord_sys_first instring loc with
  | Some r => Some r
  | None => coord_sys_second instring loc
  end.

Definition lattice_ : parser (vector * vector * vector) := fun instring loc =>
  '(loc1, v1) ← vector_ instring loc;
  '(loc2, v2) ← vector_ instring loc1;
  '(loc3, v3) ← vector_ instring loc2;
  Some (loc3, (v1, v2, v3)).

Definition atom : parser (vector * list pystr) := fun instring loc =>
  '(loc1, position) ← vector_ instring loc;
  '(loc2, atoms) ← OneOrMore Word_label instring loc1;
  Some (loc2, (position, atoms)).

Definition atat_lattice_grammer : parser parsed_data := fun instring loc =>
  '(loc1, c) ← coord_sys instring loc;
  '(loc2, l) ← lattice_ instring loc1;
  '(loc3, a) ← OneOrMore atom instring loc2;
  Some (loc3, {| atat_coord_system := c; atat_lattice := l; atat_atoms := a |}).

(** [atat_lattice_grammer.parseString(lattice_in)]: text after the last atom
    is not looked at ([parseAll] is off). *)
Definition _parse_atat_lattice (lattice_in : pystr) : result parsed_data :=
  match atat_lattice_grammer (expandtabs lattice_in) O with
  | Some (_, parsed) => Ok parsed
  | None => Raise ParseException
  end.

Definition lat_in_to_sqs (atat_lattice_in : pystr) (rename : bool) : result AbstractSQS :=
  parsed ← _parse_atat_lattice atat_lattice_in;
  sqs_of_parsed_data parsed rename.

End Grammar.

(** A symbolic instance, to run the code on concrete files: floats are kept
    as the text they were read from and matrices as expressions. *)
Inductive symbolic_matrix : Type :=
| sym_Lattice (rows : list (list pystr))
| sym_from_parameters (a b c alpha beta gamma : pystr)
| sym_dot (m1 m2 : symbolic_matrix).

Definition symbolic : Crystallography := {|
  float := pystr;
  float_of_str := fun s => s;
  matrix := symbolic_matrix;
  Lattice_matrix := sym_Lattice;
  Lattice_from_parameters_matrix := sym_from_parameters;
  dot := sym_dot
|}.


(** ** [get_structures_from_database] *)

(** A document of the TinyDB table, with the two fields the query reads;
    [doc_id] stands for the rest of the document. *)
Record document : Type := {
  doc_id : nat;
  symmetry_symbol : pystr;
  sublattice_site_ratios : list (list Z)
}.

(** [x % y] on ints. *)
Definition py_mod (x y : Z) : result Z :=
  if y =? 0 then Raise ZeroDivisionError else Ok (x mod y).

(** [float(k)] for an int [k], as the integer the double is equal to: round
    to nearest, ties to even, on 53 bits; [OverflowError] beyond the range of
    a double. *)
Definition float_of_int (k : Z) : result Z :=
  let a := Z.abs k in
  if a <? 2 ^ 53 then Ok k
  else
    let shift := Z.log2 a - 52 in
    let q := Z.shiftr a shift in
    let r := Z.land a (Z.ones shift) in
    let half := 2 ^ (shift - 1) in
    let q' := if (half <? r) || ((r =? half) && Z.odd q) then q + 1 else q in
    let v := q' * 2 ^ shift in
    if 2 ^ 1024 <=? v then Raise OverflowError else Ok (Z.sgn k * v).

(** [x / y] on ints where [y] divides [x], which is how line 300 uses it:
    the quotient, correctly rounded to a double. *)
Definition truediv_exact (x y : Z) : result Z := float_of_int (x / y).

(** [sum(subl)] *)
Definition sum (l : list Z) : Z := fold_left Z.add l 0.

(** One pass of the loop of [lists_are_multiple] (lines 298-301): the list
    of remainders is built in full before [all] looks at it. *)
Definition is_multiple (a b : list Z) : result bool :=
  divisible ← mapM (fun '(x, y) => r ← py_mod x y; Ok (r =? 0)) (combine a b);
  if forallb id divisible then
    quotients ← mapM (fun '(x, y) => truediv_exact x y) (combine a b);
    Ok (length (remove_dups quotients) =? 1)%nat
  else Ok false.

Fixpoint for_directions (directions : list (list Z * list Z)) : result bool :=
  match directions with
  | [] => Ok false
  | (a, b) :: directions' =>
      found ← is_multiple a b;
      if (found : bool) then Ok true else for_directions directions'
  end.

Definition lists_are_multiple (l1 l2 : list Z) : result bool :=
  if negb (length l1 =? length l2)%nat then Ok false
  else for_directions [(l1, l2); (l2, l1)].

(** [db.search(cond)]: the documents that pass, in the order of the table;
    an exception in [cond] ends the search. *)
Fixpoint search (cond : document -> result bool) (db : list document)
    : result (list document) :=
  match db with
  | [] => Ok []
  | doc :: db' =>
      keep ← cond doc;
      results ← search cond db';
      Ok (if (keep : bool) then doc :: results else results)
  end.

(** [(where('symmetry').symbol == symmetry) & where('sublattice_site_ratios').test(...)]:
    the second test runs only when the first holds. *)
Definition query (symmetry : pystr) (subl_site_ratios : list Z) (doc : document)
    : result bool :=
  if bool_decide (symmetry_symbol doc = symmetry) then
    lists_are_multiple (List.map sum (sublattice_site_ratios doc)) subl_site_ratios
  else Ok false.

Definition get_structures_from_database (db : list document) (symmetry : pystr)
    (subl_model : list (list pystr)) (subl_site_ratios : list Z)
    : result (list document) :=
  search (query symmetry subl_site_ratios) db.

(** ** [parse_atatsqs_path] and [read_sqsgen_in] *)

Module Sqsgen.

(** The two ways these functions fail: a field without '=' makes
    [path_val[1]] or [line_list[1]] an IndexError, and a missing level makes
    the read of [level] or [leveli] an UnboundLocalError. *)
Inductive exn : Type :=
| IndexError
| UnboundLocalError.

Inductive result (A : Type) : Type :=
| Ok (a : A)
| Raise (e : exn).

Arguments Ok {A} a.
Arguments Raise {A} e.

#[global] Instance result_bind : MBind result := fun A B k r =>
  match r with
  | Ok a => k a
  | Raise e => Raise e
  end.

Definition is_Ok {A : Type} (r : result A) : Prop :=
  match r with Ok _ => True | Raise _ => False end.

Definition getitem {A : Type} (l : list A) (i : nat) : result A :=
  match l !! i with
  | Some x => Ok x
  | None => Raise IndexError
  end.

(** [sep.join(l)] *)
Fixpoint join (sep : pystr) (l : list pystr) : pystr :=
  match l with
  | [] => []
  | [x] => x
  | x :: l' => x ++ sep ++ join sep l'
  end.

(** The dict both functions build: the keys "level", "configuration" and
    "occupancies". *)
Record config : Type := {
  level : pystr;
  configuration : list pystr;
  occupancies : list (list pystr)
}.

(** The local variables of the loop over the fields; the level may not be
    bound yet. *)
Record fields_state : Type := {
  level_var : option pystr;
  configuration_var : list pystr;
  occupancies_var : list (list pystr)
}.

(** The key of a field, [field.split("=")[0]]. *)
Definition key_of (field : pystr) : pystr :=
  default [] (head (split (cp "=") field)).

(** Lines 196-203: one field of the path. *)
Definition path_param_step (st : fields_state) (path_param : pystr) : result fields_state :=
  let path_val := split (cp "=") path_param in
  key ← getitem path_val 0;
  if bool_decide (key = py "sqsdb") then Ok st
  else if bool_decide (key = py "lev") then
    value ← getitem path_val 1;
    Ok {| level_var := Some value;
          configuration_var := configuration_var st;
          occupancies_var := occupancies_var st |}
  else
    value ← getitem path_val 1;
    Ok {| level_var := level_var st;
          configuration_var := configuration_var st ++ [key];
          occupancies_var := occupancies_var st ++ [split (cp ",") value] |}.

(** Lines 240-245: one field of a line of sqsgen.in. *)
Definition field_step (st : fields_state) (linei : pystr) : result fields_state :=
  let line_list := split (cp "=") linei in
  key ← getitem line_list 0;
  if bool_decide (key = py "level") then
    value ← getitem line_list 1;
    Ok {| level_var := Some value;
          configuration_var := configuration_var st;
          occupancies_var := occupancies_var st |}
  else
    value ← getitem line_list 1;
    Ok {| level_var := level_var st;
          configuration_var := configuration_var st ++ [key];
          occupancies_var := occupancies_var st ++ [split (cp ",") value] |}.

Fixpoint for_fields (step : fields_state -> pystr -> result fields_state)
    (st : fields_state) (fields : list pystr) : result fields_state :=
  match fields with
  | [] => Ok st
  | field :: fields' => st' ← step st field; for_fields step st' fields'
  end.

(** Reading a local variable that may not be bound. *)
Definition read_var (v : option pystr) : result pystr :=
  match v with
  | Some x => Ok x
  | None => Raise UnboundLocalError
  end.

Definition parse_atatsqs_path (atatsqs_path : pystr) : result config :=
  st ← for_fields path_param_step
         {| level_var := None; configuration_var := []; occupancies_var := [] |}
         (split (cp "_") atatsqs_path);
  level ← read_var (level_var st);
  Ok {| level := level;
        configuration := configuration_var st;
        occupancies := occupancies_var st |}.

(** What [\s] matches in a [str] pattern: the code points for which
    [str.isspace] holds. *)
Definition is_space (c : N) : bool :=
  existsb (N.eqb c)
    [9; 10; 11; 12; 13; 28; 29; 30; 31; 32; 133; 160; 5760;
     8192; 8193; 8194; 8195; 8196; 8197; 8198; 8199; 8200; 8201; 8202;
     8232; 8233; 8239; 8287; 12288]%N.

(** [re.split('\s+', s)]: the pieces between the runs of white space; a
    run at either end leaves an empty piece there. *)
Fixpoint re_split_space (after_space : bool) (s : pystr) : list pystr :=
  match s with
  | [] => [[]]
  | c :: s' =>
      if is_space c then
        if after_space then re_split_space true s'
        else [] :: re_split_space true s'
      else match re_split_space false s' with
           | [] => [[c]]
           | w :: ws => (c :: w) :: ws
           end
  end.

Definition re_split (s : pystr) : list pystr := re_split_space false s.

(** [s.lstrip(c)] and [s.strip(c)] for one character. *)
Fixpoint lstrip (c : N) (s : pystr) : pystr :=
  match s with
  | c' :: s' => if (c' =? c)%N then lstrip c s' else s
  | [] => []
  end.

Definition strip (c : N) (s : pystr) : pystr := rev (lstrip c (rev (lstrip c s))).

(** Text mode: "\r\n" and "\r" are read as "\n". *)
Fixpoint universal_newlines (s : pystr) : pystr :=
  match s with
  | [] => []
  | c :: s' =>
      if (c =? 13)%N then
        match s' with
        | c' :: s'' => if (c' =? 10)%N then 10%N :: universal_newlines s''
                       else 10%N :: universal_newlines s'
        | [] => [10%N]
        end
      else c :: universal_newlines s'
  end.

(** [for eachline in fid]: the lines, each with its line feed, the last one
    maybe without. *)
Fixpoint readlines (s : pystr) : list pystr :=
  match s with
  | [] => []
  | c :: s' =>
      if (c =? 10)%N then [c] :: readlines s'
      else match readlines s' with
           | [] => [[c]]
           | line :: lines => (c :: line) :: lines
           end
  end.

(** [re.split('\s+', eachline.strip("\n"))] *)
Definition fields_of (eachline : pystr) : list pystr := re_split (strip 10%N eachline).

(** ["sqsdb_" + "_".join(eachline)] *)
Definition folder_of (eachline : pystr) : pystr :=
  py "sqsdb_" ++ join (py "_") (fields_of eachline).

(** What the loop over the lines carries. *)
Record file_state : Type := {
  f_count : nat;
  sqs_folders : list pystr;
  sqs_config : gmap nat config;
  leveli : option pystr
}.

(** Lines 236-252: one line of sqsgen.in. *)
Definition line_body (st : file_state) (eachline : pystr) : result file_state :=
  fields ← for_fields field_step
             {| level_var := leveli st; configuration_var := []; occupancies_var := [] |}
             (fields_of eachline);
  level ← read_var (level_var fields);
  Ok {| f_count := S (f_count st);
        sqs_folders := sqs_folders st ++ [folder_of eachline];
        sqs_config :=
          <[f_count st := {| level := level;
                             configuration := configuration_var fields;
                             occupancies := occupancies_var fields |}]> (sqs_config st);
        leveli := level_var fields |}.

Fixpoint for_lines (st : file_state) (lines : list pystr) : result file_state :=
  match lines with
  | [] => Ok st
  | eachline :: lines' => st' ← line_body st eachline; for_lines st' lines'
  end.

(** [read_sqsgen_in], from the content of the file sqsgen.in. *)
Definition read_sqsgen_in (sqsgen_in : pystr) : result (list pystr * gmap nat config) :=
  st ← for_lines {| f_count := O; sqs_folders := []; sqs_config := ∅; leveli := None |}
         (readlines (universal_newlines sqsgen_in));
  Ok (sqs_folders st, sqs_config st).

(** A path in the format of the docstring, "sqsdb_lev=2_a=0.5,0.5_f=0.5,0.5",
    written from a configuration. *)
Definition path_of (c : config) : pystr :=
  join (py "_")
    (py "sqsdb" :: (py "lev=" ++ level c) ::
     zip_with (fun name occupancy => name ++ py "=" ++ join (py ",") occupancy)
              (configuration c) (occupancies c)).

(** A configuration that [path_of] writes without ambiguity: no separator
    inside the level, a name or an occupancy, no name that is a keyword of
    the path, and one occupancy list, not empty, for every name. *)
Definition no_char (chars : pystr) (s : pystr) : Prop := Forall (fun c => c ∉ s) chars.

Definition writable (c : config) : Prop :=
  no_char (py "_=") (level c) ∧
  Forall (fun name => no_char (py "_=") name ∧ name ≠ py "sqsdb" ∧ name ≠ py "lev")
         (configuration c) ∧
  Forall (fun occupancy => occupancy ≠ [] ∧ Forall (no_char (py "_=,")) occupancy)
         (occupancies c) ∧
  length (configuration c) = length (occupancies c).

(** Two properties of a line of sqsgen.in: every field holds a '=', and
    some field has the key "level". *)
Definition fields_have_values (eachline : pystr) : Prop :=
  Forall (fun field => cp "=" ∈ field) (fields_of eachline).

Definition gives_level (eachline : pystr) : Prop :=
  Exists (fun field => key_of field = py "level") (fields_of eachline).

End Sqsgen.

(** ** The words of the specification *)

(** "there exists a single scalar k such that for every index i, a[i] is
    exactly divisible by b[i] (remainder zero) and a[i] / b[i] == k" *)
Definition uniform_multiple (a b : list Z) : Prop :=
  ∃ k : Z, Forall2 (fun x y => x mod y = 0 ∧ x / y = k) a b.

Definition proportional (r_c r_q : list Z) : Prop :=
  length r_c = length r_q ∧ (uniform_multiple r_c r_q ∨ uniform_multiple r_q r_c).

(** "replace each run, parsed as an integer d, with the single letter at
    codepoint 'a' + d - 1 ... every digit run found, left to right,
    non-overlapping": the translation run by run. *)
Fixpoint translate_runs_aux (s : pystr) (run : pystr) : pystr :=
  let flush (run : pystr) : pystr :=
    match run with
    | [] => []
    | _ => [Z.to_N (Z.of_N (cp "a") + int (rev run) - 1)]
    end in
  match s with
  | [] => flush run
  | c :: s' =>
      if is_digit c then translate_runs_aux s' (c :: run)
      else flush run ++ c :: translate_runs_aux s' []
  end.

Definition translate_runs (s : pystr) : pystr := translate_runs_aux s [].

(** Ratios on which int arithmetic is exact and never raises: no zero, and
    magnitudes that a double represents exactly. *)
Definition exact_ratios (l : list Z) : Prop :=
  Forall (fun x => x ≠ 0 ∧ Z.abs x < 2 ^ 53) l.

(** The value of a test that did not raise. *)
Definition passed (r : result bool) : bool :=
  match r with
  | Ok b => b
  | Raise _ => false
  end.

(** What [Word(alphas, alphanums + '_')] matches: an ASCII letter, then
    letters, digits and underscores. *)
Definition is_label (token : pystr) : Prop :=
  ∃ c rest, token = c :: rest ∧ is_alpha c = true ∧
            Forall (fun c' => is_alphanum_ c' = true) rest.

(** The characters that a pattern can match. *)
Fixpoint alphabet (r : regex) (c : N) : bool :=
  match r with
  | Class p | Star p | Plus p => p c
  | Cat r1 r2 => alphabet r1 c || alphabet r2 c
  | Opt r1 => alphabet r1 c
  end.


(** What may follow a number: the end of the text, or a character that the
    pattern cannot match. *)
Definition ends_number (post : pystr) : Prop :=
  match post with
  | [] => True
  | d :: _ => alphabet float_regex d = false
  end.






(** The characters of a label. *)
Definition label_chars (s : pystr) : Prop := Forall (fun c => is_alphanum_ c = true) s.

(** [subl_model.get(subl, set())] *)
Definition species_of (m : gmap pystr (gset pystr)) (subl : pystr) : gset pystr :=
  default ∅ (m !! subl).

Section Shapes.
Context `{Crystallography}.

(** What the grammar guarantees of its parse tree: [OneOrMore(atom)] gives at
    least one atom, [OneOrMore(Word(...))] at least one token per atom. *)
Definition grammar_shaped (parsed : parsed_data) : Prop :=
  atat_atoms parsed ≠ [] ∧
  Forall (fun record : vector * list pystr => record.2 ≠ []) (atat_atoms parsed).

(** The same file with its atom records replaced. *)
Definition with_atoms (parsed : parsed_data) (atoms : list (vector * list pystr))
    : parsed_data :=
  {| atat_coord_system := atat_coord_system parsed;
     atat_lattice := atat_lattice parsed;
     atat_atoms := atoms |}.

(** The species labels and the positions follow the atom records, one by
    one and in their order. *)
Definition mirrors_atoms (sqs : AbstractSQS) (atoms : list (vector * list pystr)) : Prop :=
  Forall2 (fun (record : vector * list pystr) (label : pystr) =>
             ∃ subl subl_atom,
               decode_label true record.2 = Ok (subl, subl_atom) ∧
               label = py "X" ++ subl ++ subl_atom)
          atoms (species sqs) ∧
  coords sqs = List.map (fun record : vector * list pystr => list_of_vector record.1) atoms.





(** Every token of the atom records is a label of the grammar. *)
Definition labelled (atoms : list (vector * list pystr)) : Prop :=
  Forall (fun record : vector * list pystr => Forall is_label record.2) atoms.

(** The atom records with every token in lower case. *)
Definition lower_atoms (atoms : list (vector * list pystr)) : list (vector * list pystr) :=
  List.map (fun record : vector * list pystr => (record.1, List.map lower record.2)) atoms.

(** Some atom record decodes to this sublattice and this species. *)
Definition has_atom (atoms : list (vector * list pystr)) (subl subl_atom : pystr) : Prop :=
  ∃ record, record ∈ atoms ∧ decode_label true record.2 = Ok (subl, subl_atom).

(** Two runs of the loop end alike, as far as the sublattice model goes. *)
Definition same_model (r1 r2 : result loop_state) : Prop :=
  match r1, r2 with
  | Ok st1, Ok st2 => subl_model st1 = subl_model st2
  | Raise _, Raise _ => True
  | _, _ => False
  end.

End Shapes.

(** ** Concrete files *)

Definition nl : string := String (ascii_of_nat 10) EmptyString.

(** The text made of the given lines. *)
Definition lines (l : list string) : pystr := py (String.concat nl l).

(** A parsed file with unit axes and the given atoms, for the symbolic
    instance. *)
Definition unit_axes : @vector symbolic * @vector symbolic * @vector symbolic :=
  ((py "1", py "0", py "0"), (py "0", py "1", py "0"), (py "0", py "0", py "1")).

Definition parsed_with_atoms (atoms : list (@vector symbolic * list pystr))
    : @parsed_data symbolic :=
  let '(x, y, z) := unit_axes in
  {| atat_coord_system := coord_matrix x y z;
     atat_lattice := unit_axes;
     atat_atoms := atoms |}.

Definition vec (x y z : string) : @vector symbolic := (py x, py y, py z).

Definition origin : @vector symbolic := vec "0" "0" "0".
Definition centre : @vector symbolic := vec "0.5" "0.5" "0.5".

(** A lengths-and-angles file as ATAT writes it, the six numbers on the
    first line; and the same with the angles on a line of their own. *)
Definition lengths_angles_one_line : pystr :=
  lines ["3.8 3.8 3.8 90 90 90";
         "1 0 0"; "0 1 0"; "0 0 1";
         "0 0 0 a_A"; "0.5 0.5 0.5 a_B"].


Definition mkdoc (i : nat) (symmetry : string) (ratios : list (list Z)) : document :=
  {| doc_id := i; symmetry_symbol := py symmetry; sublattice_site_ratios := ratios |}.

(** * Properties *)

Section BuilderFacts.
Context `{Crystallography}.

(** ** The loop over the atoms *)

Lemma for_atoms_app rename st l1 l2 :
  for_atoms rename st (l1 ++ l2) =
  for_atoms rename st l1 ≫= fun st' => for_atoms rename st' l2.
Proof.
  revert st; induction l1 as [|record l1 IH]; intros st; simpl; [reflexivity|].
  destruct (loop_body rename st record) as [st'|e]; simpl; [apply IH | reflexivity].
Qed.

Lemma loop_body_decode rename st position atoms :
  loop_body rename st (position, atoms) =
  match decode_label rename atoms with
  | Ok (subl, subl_atom) => Ok (record_atom st position subl subl_atom)
  | Raise e => Raise e
  end.
Proof.
  unfold loop_body. destruct (decode_label rename atoms) as [[subl subl_atom]|e]; reflexivity.
Qed.

Lemma for_atoms_is_Ok rename st atoms :
  is_Ok (for_atoms rename st atoms) <->
  Forall (fun record => is_Ok (decode_label rename record.2)) atoms.
Proof.
  revert st; induction atoms as [|[position tokens] atoms IH]; intros st; cbn [for_atoms].
  - split; [constructor | exact (fun _ => I)].
  - rewrite loop_body_decode.
    destruct (decode_label rename tokens) as [[subl subl_atom]|e] eqn:Hd; simpl.
    + rewrite IH. split.
      * intros Hall. constructor; [simpl; rewrite Hd; exact I | exact Hall].
      * intros Hall. inversion Hall; assumption.
    + split; [intros [] |].
      intros Hall. inversion Hall as [|? ? Hhd]. simpl in Hhd. rewrite Hd in Hhd. exact Hhd.
Qed.

(** The loop stops at the first record whose label does not decode. *)
Lemma for_atoms_first_failure rename st pre position tokens post e :
  Forall (fun record => is_Ok (decode_label rename record.2)) pre ->
  decode_label rename tokens = Raise e ->
  for_atoms rename st (pre ++ (position, tokens) :: post) = Raise e.
Proof.
  intros Hpre Hd. rewrite for_atoms_app.
  apply (for_atoms_is_Ok rename st) in Hpre.
  destruct (for_atoms rename st pre) as [st'|e']; [|destruct Hpre].
  cbn [mbind result_bind for_atoms]. rewrite loop_body_decode, Hd. reflexivity.
Qed.

Lemma sqs_of_parsed_data_Raise parsed rename e :
  for_atoms rename loop_init (atat_atoms parsed) = Raise e ->
  sqs_of_parsed_data parsed rename = Raise e.
Proof.
  intros Hloop. unfold sqs_of_parsed_data.
  destruct (atat_lattice parsed) as [[l1 l2] l3]. rewrite Hloop. reflexivity.
Qed.

Lemma sqs_of_parsed_data_is_Ok parsed rename :
  is_Ok (sqs_of_parsed_data parsed rename) <->
  is_Ok (for_atoms rename loop_init (atat_atoms parsed)).
Proof.
  unfold sqs_of_parsed_data.
  destruct (atat_lattice parsed) as [[l1 l2] l3].
  destruct (for_atoms rename loop_init (atat_atoms parsed)); reflexivity.
Qed.

(** A record that does not decode makes the whole build fail. *)
Lemma sqs_of_parsed_data_bad_record parsed rename pre position tokens post :
  atat_atoms parsed = pre ++ (position, tokens) :: post ->
  ¬ is_Ok (decode_label rename tokens) ->
  ¬ is_Ok (sqs_of_parsed_data parsed rename).
Proof.
  intros Hatoms Hbad. rewrite sqs_of_parsed_data_is_Ok, for_atoms_is_Ok, Hatoms.
  intros Hall. apply Forall_app in Hall as [_ Hall].
  inversion Hall as [|? ? Hhd]. exact (Hbad Hhd).
Qed.

Lemma lower_char_not_sep c : c ≠ cp "_" -> lower_char c ≠ cp "_".
Proof.
  unfold lower_char, is_upper, cp. simpl N_of_ascii. intros Hc.
  destruct (65 <=? c)%N eqn:H1; destruct (c <=? 90)%N eqn:H2; simpl; try exact Hc.
  apply N.leb_le in H1. lia.
Qed.

Lemma lower_no_sep token : cp "_" ∉ token -> cp "_" ∉ lower token.
Proof.
  unfold lower. intros Hno Hin.
  apply list_elem_of_In, in_map_iff in Hin as (c & Hc & Hin).
  apply (lower_char_not_sep c); [|exact Hc].
  intros ->. apply Hno, list_elem_of_In, Hin.
Qed.

Lemma split_no_sep sep s : sep ∉ s -> split sep s = [s].
Proof.
  induction s as [|c s IH]; intros Hno; simpl; [reflexivity|].
  apply not_elem_of_cons in Hno as [Hne Hno].
  destruct (N.eqb_spec c sep) as [->|_]; [congruence|].
  rewrite (IH Hno). reflexivity.
Qed.

(** A single token without separator: the species [atom[1]] is out of
    range, unless the digits of the sublattice part already raised. *)
Lemma decode_label_no_sep token :
  cp "_" ∉ token ->
  decode_label true [token] =
  translate_digits (lower token) ≫= fun _ => Raise IndexError.
Proof.
  intros Hno. unfold decode_label. cbn [length Nat.ltb Nat.leb getitem lookup list_lookup mbind result_bind].
  rewrite (split_no_sep _ _ (lower_no_sep _ Hno)).
  cbn -[translate_digits lower]. destruct (translate_digits (lower token)); reflexivity.
Qed.

Lemma decode_label_several rename tokens :
  (1 < length tokens)%nat ->
  decode_label rename tokens = Raise (NotImplementedError sublattice_is_unclear).
Proof.
  intros Hlen. unfold decode_label.
  destruct (Nat.ltb_spec 1 (length tokens)) as [_|Hle]; [reflexivity | lia].
Qed.

Lemma decode_label_no_rename tokens :
  tokens ≠ [] ->
  decode_label false tokens =
  Raise (NotImplementedError
           (if (1 <? length tokens)%nat then sublattice_is_unclear
            else name_may_be_ambigous)).
Proof.
  intros Hne. unfold decode_label.
  destruct (1 <? length tokens)%nat; [reflexivity|].
  destruct tokens as [|atom tokens]; [congruence | reflexivity].
Qed.

(** Without renaming the first atom record ends the build. *)
Lemma sqs_of_parsed_data_no_rename parsed :
  grammar_shaped parsed ->
  ∃ position tokens rest,
    atat_atoms parsed = (position, tokens) :: rest ∧
    sqs_of_parsed_data parsed false =
    Raise (NotImplementedError
             (if (1 <? length tokens)%nat then sublattice_is_unclear
              else name_may_be_ambigous)).
Proof.
  intros [Hne Hall].
  destruct (atat_atoms parsed) as [|[position tokens] rest] eqn:Hatoms; [congruence|].
  exists position, tokens, rest. split; [reflexivity|].
  apply sqs_of_parsed_data_Raise. rewrite Hatoms.
  apply (for_atoms_first_failure false loop_init [] position tokens rest); [constructor|].
  apply decode_label_no_rename. inversion Hall; assumption.
Qed.

End BuilderFacts.

(** ** C1: the end-to-end example *)

(** C1, as stated, fails: a label of the grammar starts with a letter, so
    "2_A" is never read as a label.  On the lattice file of the claim, with
    the atoms "a_B" and "2_A", the atom list ends before the second line and
    the build returns one atom: the names are ["a"] and not ["a", "b"], the
    model is [["b"]] and the one species label is "Xab", in lower case.  With
    the line of "2_A" first, nothing is parsed at all. *)
Lemma C1_file_with_2_A_gives_one_atom :
  (∃ sqs,
     @lat_in_to_sqs symbolic
       (lines ["1 0 0"; "0 1 0"; "0 0 1";
               "1 0 0"; "0 1 0"; "0 0 1";
               "0 0 0 a_B";
               "0.5 0.5 0.5 2_A"]) true = Ok sqs ∧
     sublattice_names sqs = [py "a"] ∧
     sublattice_model sqs = [[py "b"]] ∧
     species sqs = [py "Xab"] ∧
     sublattice_names sqs ≠ [py "a"; py "b"] ∧
     sublattice_model sqs ≠ [[py "B"]; [py "A"]] ∧
     species sqs ≠ [py "XaB"; py "XbA"]) ∧
  @lat_in_to_sqs symbolic
    (lines ["1 0 0"; "0 1 0"; "0 0 1";
            "1 0 0"; "0 1 0"; "0 0 1";
            "0.5 0.5 0.5 2_A";
            "0 0 0 a_B"]) true = Raise ParseException.
Proof.
  split; [|vm_compute; reflexivity].
  eexists. split; [vm_compute; reflexivity|].
  repeat split; vm_compute; first [reflexivity | discriminate].
Qed.

(** C1, amended: for every lattice file that parses to two atom records
    with the single tokens "a_B" and "b_A", the build with rename=True gives
    the sublattice names ["a", "b"], the sublattice model [["b"], ["a"]] and
    the species labels "Xab" and "Xba", with the positions in the order of
    the records: the whole token is lower-cased before it is split, the
    species with it. *)
Theorem C1_build_a_B_b_A `{Crystallography} lattice_in parsed position1 position2 :
  _parse_atat_lattice lattice_in = Ok parsed ->
  atat_atoms parsed = [(position1, [py "a_B"]); (position2, [py "b_A"])] ->
  ∃ sqs,
    lat_in_to_sqs lattice_in true = Ok sqs ∧
    sublattice_names sqs = [py "a"; py "b"] ∧
    sublattice_model sqs = [[py "b"]; [py "a"]] ∧
    species sqs = [py "Xab"; py "Xba"] ∧
    coords sqs = [list_of_vector position1; list_of_vector position2].
Proof.
  intros Hparse Hatoms. unfold lat_in_to_sqs. rewrite Hparse. cbn [mbind result_bind].
  destruct parsed as [coord_system [[l1 l2] l3] atoms]. cbn [atat_atoms] in Hatoms. subst atoms.
  eexists. split; [reflexivity|].
  repeat split; vm_compute; reflexivity.
Qed.

Lemma C1_build_a_B_b_A_witness :
  ∃ sqs,
    @lat_in_to_sqs symbolic
      (lines ["1 0 0"; "0 1 0"; "0 0 1";
              "1 0 0"; "0 1 0"; "0 0 1";
              "0 0 0 a_B";
              "0.5 0.5 0.5 b_A"]) true = Ok sqs ∧
    sublattice_names sqs = [py "a"; py "b"] ∧
    sublattice_model sqs = [[py "b"]; [py "a"]] ∧
    species sqs = [py "Xab"; py "Xba"] ∧
    coords sqs = [list_of_vector origin; list_of_vector centre].
Proof.
  apply (C1_build_a_B_b_A (H := symbolic)
           (lines ["1 0 0"; "0 1 0"; "0 0 1";
                   "1 0 0"; "0 1 0"; "0 0 1";
                   "0 0 0 a_B";
                   "0.5 0.5 0.5 b_A"])
           (parsed_with_atoms [(origin, [py "a_B"]); (centre, [py "b_A"])])
           origin centre);
    vm_compute; reflexivity.
Defined.

(** ** C4: digits to letters *)

(** C4 at the designator "a1b12": the code answers "aaba2", the translation
    run by run answers "aabl".  Replacing the run "1" rewrites the "1" of the
    later run "12" as well, after which "12" is no longer found. *)
Theorem C4_translate_digits_a1b12 :
  translate_digits (py "a1b12") = Ok (py "aaba2") ∧
  translate_runs (py "a1b12") = py "aabl".
Proof. split; vm_compute; reflexivity. Qed.

(** Where no digit run occurs inside a later one the two agree. *)
Lemma translate_digits_examples :
  translate_digits (py "2") = Ok (py "b") ∧
  translate_digits (py "a1") = Ok (py "aa") ∧
  translate_digits (py "a12b1") = Ok (py "alba") ∧ translate_runs (py "a12b1") = py "alba" ∧
  translate_digits (py "g10") = Ok (py "gj") ∧ translate_runs (py "g10") = py "gj".
Proof. repeat split; vm_compute; reflexivity. Qed.

(** The same through [lat_in_to_sqs], on a file the grammar accepts. *)
Lemma lat_in_to_sqs_a1b12 :
  @lat_in_to_sqs symbolic
     (lines ["1 0 0"; "0 1 0"; "0 0 1";
             "1 0 0"; "0 1 0"; "0 0 1";
             "0 0 0 a1b12_C"]) true
  ≫= (fun sqs => Ok (species sqs)) = Ok [py "Xaaba2c"].
Proof. vm_compute. reflexivity. Qed.

(** ** C3: a label without separator *)

(** C3, as stated, fails: a file whose only atom is labelled "aB" makes
    [lat_in_to_sqs] raise the IndexError of [atom[1]]; the module has no
    error of its own for a malformed label. *)
Lemma C3_no_separator_is_an_IndexError :
  @lat_in_to_sqs symbolic
    (lines ["1 0 0"; "0 1 0"; "0 0 1";
            "1 0 0"; "0 1 0"; "0 0 1";
            "0 0 0 aB"]) true = Raise IndexError.
Proof. vm_compute. reflexivity. Qed.

(** C3, amended: a file with an atom record whose single token has no '_'
    never builds; when the records before it decode and the digits of the
    token translate, the error is the IndexError raised by reading the
    species [atom[1]]. *)
Theorem C3_no_separator_raises_IndexError `{Crystallography}
    parsed pre position token post :
  atat_atoms parsed = pre ++ (position, [token]) :: post ->
  cp "_" ∉ token ->
  ¬ is_Ok (sqs_of_parsed_data parsed true) ∧
  (Forall (fun record => is_Ok (decode_label true record.2)) pre ->
   is_Ok (translate_digits (lower token)) ->
   sqs_of_parsed_data parsed true = Raise IndexError).
Proof.
  intros Hatoms Hno. pose proof (decode_label_no_sep token Hno) as Hd.
  split.
  - apply (sqs_of_parsed_data_bad_record parsed true pre position [token] post Hatoms).
    rewrite Hd. destruct (translate_digits (lower token)); exact (fun x => x).
  - intros Hpre Hdigits. apply sqs_of_parsed_data_Raise. rewrite Hatoms.
    apply for_atoms_first_failure; [exact Hpre|].
    rewrite Hd. destruct (translate_digits (lower token)); [reflexivity | destruct Hdigits].
Qed.

Lemma C3_no_separator_raises_IndexError_witness :
  sqs_of_parsed_data
    (parsed_with_atoms [(origin, [py "a_A"]); (centre, [py "b2"])]) true
  = Raise IndexError.
Proof.
  refine (proj2 (C3_no_separator_raises_IndexError (H := symbolic)
                   (parsed_with_atoms [(origin, [py "a_A"]); (centre, [py "b2"])])
                   [(origin, [py "a_A"])] centre (py "b2") [] eq_refl _) _ _).
  - apply (bool_decide_unpack _). vm_compute. exact I.
  - repeat constructor.
  - vm_compute. exact I.
Defined.

(** ** C8: more than one token *)

(** C8, as stated, fails: the records are read in order, and here the first
    one, labelled "ab", raises IndexError before the record with two tokens
    is looked at. *)
Lemma C8_earlier_record_fails_first :
  @lat_in_to_sqs symbolic
    (lines ["1 0 0"; "0 1 0"; "0 0 1";
            "1 0 0"; "0 1 0"; "0 0 1";
            "0 0 0 ab";
            "0.5 0.5 0.5 a_B c_D"]) true = Raise IndexError.
Proof. vm_compute. reflexivity. Qed.

(** C8, amended: a file with an atom record of more than one token never
    builds; when the records before it decode, the error is the
    NotImplementedError 'Cannot parse atom list ... because the sublattice is
    unclear'. *)
Theorem C8_several_tokens_raise_NotImplementedError `{Crystallography}
    parsed pre position tokens post :
  atat_atoms parsed = pre ++ (position, tokens) :: post ->
  (1 < length tokens)%nat ->
  ¬ is_Ok (sqs_of_parsed_data parsed true) ∧
  (Forall (fun record => is_Ok (decode_label true record.2)) pre ->
   sqs_of_parsed_data parsed true = Raise (NotImplementedError sublattice_is_unclear)).
Proof.
  intros Hatoms Hlen. pose proof (decode_label_several true tokens Hlen) as Hd.
  split.
  - apply (sqs_of_parsed_data_bad_record parsed true pre position tokens post Hatoms).
    rewrite Hd. exact (fun x => x).
  - intros Hpre. apply sqs_of_parsed_data_Raise. rewrite Hatoms.
    apply for_atoms_first_failure; assumption.
Qed.

Lemma C8_several_tokens_raise_NotImplementedError_witness :
  sqs_of_parsed_data
    (parsed_with_atoms [(origin, [py "a_A"]); (centre, [py "a_B"; py "c_D"])]) true
  = Raise (NotImplementedError sublattice_is_unclear).
Proof.
  refine (proj2 (C8_several_tokens_raise_NotImplementedError (H := symbolic)
                   (parsed_with_atoms [(origin, [py "a_A"]); (centre, [py "a_B"; py "c_D"])])
                   [(origin, [py "a_A"])] centre [py "a_B"; py "c_D"] [] eq_refl _) _).
  - simpl. lia.
  - repeat constructor.
Defined.

(** ** C9: rename=False *)

(** C9, as stated, fails: the number of tokens is tested before [rename],
    so a first record with two tokens raises the 'sublattice is unclear'
    error, not the 'Cannot rename' one. *)
Lemma C9_token_count_is_tested_first :
  @lat_in_to_sqs symbolic
    (lines ["1 0 0"; "0 1 0"; "0 0 1";
            "1 0 0"; "0 1 0"; "0 0 1";
            "0 0 0 a_A b_B"]) false
  = Raise (NotImplementedError sublattice_is_unclear).
Proof. vm_compute. reflexivity. Qed.

(** C9, amended: with rename=False every parse tree of the grammar fails
    with a NotImplementedError and no result, raised at the first atom
    record: 'Cannot rename ...' when that record has one token, 'Cannot parse
    atom list ...' when it has several. *)
Theorem C9_no_rename_raises_NotImplementedError `{Crystallography} parsed :
  grammar_shaped parsed ->
  ∃ position tokens rest,
    atat_atoms parsed = (position, tokens) :: rest ∧
    sqs_of_parsed_data parsed false =
    Raise (NotImplementedError
             (if (1 <? length tokens)%nat then sublattice_is_unclear
              else name_may_be_ambigous)).
Proof. apply sqs_of_parsed_data_no_rename. Qed.

Lemma C9_no_rename_raises_NotImplementedError_witness :
  ∃ position tokens rest,
    atat_atoms (parsed_with_atoms [(origin, [py "a_A"]); (centre, [py "a_B"])])
    = (position, tokens) :: rest ∧
    sqs_of_parsed_data
      (parsed_with_atoms [(origin, [py "a_A"]); (centre, [py "a_B"])]) false =
    Raise (NotImplementedError
             (if (1 <? length tokens)%nat then sublattice_is_unclear
              else name_may_be_ambigous)).
Proof.
  apply (C9_no_rename_raises_NotImplementedError (H := symbolic)).
  split; [discriminate | repeat constructor; discriminate].
Defined.

(** ** The proportionality test *)

Lemma mapM_Ok_map {A B : Type} (f : A -> result B) (g : A -> B) (l : list A) :
  Forall (fun a => f a = Ok (g a)) l -> mapM f l = Ok (List.map g l).
Proof.
  induction 1 as [|a l Ha _ IH]; simpl; [reflexivity|].
  rewrite Ha. simpl. rewrite IH. reflexivity.
Qed.

Lemma Forall2_combine {A B : Type} (P : A -> B -> Prop) (a : list A) (b : list B) :
  length a = length b ->
  Forall2 P a b <-> Forall (fun p => P p.1 p.2) (combine a b).
Proof.
  revert b; induction a as [|x a IH]; intros [|y b] Hlen; simpl in *; try discriminate.
  - split; constructor.
  - injection Hlen as Hlen. split.
    + intros HF. inversion HF; subst. constructor; [assumption | apply IH; assumption].
    + intros HF. inversion HF; subst. constructor; [assumption | apply IH; assumption].
Qed.

Lemma remainders_raise (a b : list Z) :
  length a = length b -> 0 ∈ b ->
  mapM (fun '(x, y) => r ← py_mod x y; Ok (r =? 0)) (combine a b)
  = Raise ZeroDivisionError.
Proof.
  revert b; induction a as [|x a IH]; intros [|y b] Hlen Hin; simpl in *;
    try discriminate.
  - inversion Hin.
  - injection Hlen as Hlen.
    destruct (Z.eq_dec y 0) as [->|Hy]; [reflexivity|].
    assert (py_mod x y = Ok (x mod y)) as ->.
    { unfold py_mod. destruct (Z.eqb_spec y 0); [contradiction | reflexivity]. }
    cbn [mbind result_bind]. rewrite IH; [reflexivity | assumption |].
    apply elem_of_cons in Hin as [Heq|Hin]; [congruence | assumption].
Qed.

Lemma is_multiple_zero (a b : list Z) :
  length a = length b -> 0 ∈ b -> is_multiple a b = Raise ZeroDivisionError.
Proof.
  intros Hlen Hin. unfold is_multiple.
  rewrite (remainders_raise a b Hlen Hin). reflexivity.
Qed.

Lemma lists_are_multiple_zero (l1 l2 : list Z) :
  length l1 = length l2 -> 0 ∈ l2 ->
  lists_are_multiple l1 l2 = Raise ZeroDivisionError.
Proof.
  intros Hlen Hin. unfold lists_are_multiple.
  rewrite Hlen, Nat.eqb_refl. cbn [negb for_directions].
  rewrite (is_multiple_zero l1 l2 Hlen Hin). reflexivity.
Qed.

Lemma lists_are_multiple_lengths (l1 l2 : list Z) :
  length l1 ≠ length l2 -> lists_are_multiple l1 l2 = Ok false.
Proof.
  intros Hlen. unfold lists_are_multiple.
  destruct (Nat.eqb_spec (length l1) (length l2)); [contradiction | reflexivity].
Qed.

Lemma float_of_int_exact (k : Z) : Z.abs k < 2 ^ 53 -> float_of_int k = Ok k.
Proof.
  intros Hk. unfold float_of_int.
  destruct (Z.ltb_spec (Z.abs k) (2 ^ 53)); [reflexivity | lia].
Qed.

Lemma exact_quotient_small (x y : Z) :
  y ≠ 0 -> x mod y = 0 -> Z.abs x < 2 ^ 53 -> Z.abs (x / y) < 2 ^ 53.
Proof.
  intros Hy Hmod Hx.
  pose proof (Z.div_mod x y Hy) as Hdiv. rewrite Hmod, Z.add_0_r in Hdiv.
  assert (Z.abs (x / y) <= Z.abs x); [|lia].
  rewrite Hdiv at 2. rewrite Z.abs_mul. nia.
Qed.

(** [len(set(l)) == 1]: the list is not empty and holds one value. *)
Lemma one_value (l : list Z) :
  length (remove_dups l) = 1%nat <-> l ≠ [] ∧ ∃ k, Forall (fun q => q = k) l.
Proof.
  split.
  - intros Hlen. destruct (remove_dups l) as [|k [|k' rest]] eqn:Hd; try discriminate.
    split.
    + intros ->. discriminate.
    + exists k. apply Forall_forall. intros q Hq.
      assert (q ∈ remove_dups l) as Hq' by (apply elem_of_remove_dups; exact Hq).
      rewrite Hd in Hq'. apply list_elem_of_singleton in Hq'. exact Hq'.
  - intros [Hne [k Hall]].
    pose proof (NoDup_remove_dups l) as Hnd.
    assert (∀ q, q ∈ remove_dups l -> q = k) as Hk.
    { intros q Hq. rewrite elem_of_remove_dups in Hq.
      rewrite Forall_forall in Hall. exact (Hall q Hq). }
    destruct (remove_dups l) as [|q1 [|q2 rest]] eqn:Hd.
    + destruct l as [|q l]; [congruence|].
      assert (q ∈ remove_dups (q :: l)) as Hq by (apply elem_of_remove_dups; left).
      rewrite Hd in Hq. inversion Hq.
    + reflexivity.
    + exfalso. assert (q1 = k) by (apply Hk; left).
      assert (q2 = k) by (apply Hk; right; left). subst.
      inversion Hnd as [|? ? Hnotin]; subst. apply Hnotin. left.
Qed.

(** One direction of the test, on exact ratios. *)
Lemma is_multiple_exact (a b : list Z) :
  length a = length b -> exact_ratios a -> exact_ratios b ->
  ∃ found : bool,
    is_multiple a b = Ok found ∧ (found = true <-> a ≠ [] ∧ uniform_multiple a b).
Proof.
  intros Hlen Ha Hb. unfold is_multiple, uniform_multiple.
  assert (Forall (fun p : Z * Z => (p.2 ≠ 0) ∧ Z.abs p.1 < 2 ^ 53) (combine a b)) as Hpairs.
  { apply Forall_forall. intros [x y] Hin. apply list_elem_of_In in Hin.
    pose proof (in_combine_l _ _ _ _ Hin) as Hx. pose proof (in_combine_r _ _ _ _ Hin) as Hy.
    unfold exact_ratios in *. rewrite Forall_forall in Ha. rewrite Forall_forall in Hb.
    apply list_elem_of_In in Hx, Hy. specialize (Ha x Hx). specialize (Hb y Hy).
    simpl. tauto. }
  rewrite (mapM_Ok_map _ (fun p : Z * Z => p.1 mod p.2 =? 0)).
  2:{ eapply Forall_impl; [exact Hpairs|]. intros [x y] [Hy _]. simpl in *.
      unfold py_mod. destruct (Z.eqb_spec y 0); [contradiction | reflexivity]. }
  cbn [mbind result_bind].
  assert (∀ k, Forall2 (fun x y => x mod y = 0 ∧ x / y = k) a b <->
               Forall (fun p : Z * Z => p.1 mod p.2 = 0 ∧ p.1 / p.2 = k) (combine a b)) as Hspec.
  { intros k. apply (Forall2_combine (fun x y => x mod y = 0 ∧ x / y = k)). exact Hlen. }
  assert (a ≠ [] <-> combine a b ≠ []) as Hne.
  { destruct a, b; simpl in *; try discriminate; split; congruence. }
  destruct (forallb id (List.map (fun p : Z * Z => p.1 mod p.2 =? 0) (combine a b))) eqn:Hall.
  - assert (Forall (fun p : Z * Z => p.1 mod p.2 = 0) (combine a b)) as Hdiv.
    { apply Forall_forall. intros p Hp. rewrite forallb_forall in Hall.
      apply Z.eqb_eq. apply (Hall (p.1 mod p.2 =? 0)).
      apply in_map_iff. exists p. split; [reflexivity | apply list_elem_of_In; exact Hp]. }
    rewrite (mapM_Ok_map _ (fun p : Z * Z => p.1 / p.2)).
    2:{ rewrite Forall_forall in Hpairs. rewrite Forall_forall in Hdiv. apply Forall_forall. intros [x y] Hp.
        specialize (Hpairs _ Hp). specialize (Hdiv _ Hp). simpl in *.
        unfold truediv_exact. apply float_of_int_exact.
        apply exact_quotient_small; tauto. }
    cbn [mbind result_bind]. eexists. split; [reflexivity|].
    rewrite Nat.eqb_eq, one_value. rewrite Hne.
    split.
    + intros [Hne' [k Hk]]. split; [|exists k; apply Hspec].
      * intros Hnil. apply Hne'. rewrite Hnil. reflexivity.
      * rewrite Forall_forall in Hk. rewrite Forall_forall in Hdiv. apply Forall_forall. intros p Hp.
        split; [apply Hdiv; exact Hp|]. apply Hk.
        apply list_elem_of_In, in_map_iff. exists p.
        split; [reflexivity | apply list_elem_of_In; exact Hp].
    + intros [Hne' [k Hk]]. apply Hspec in Hk. split.
      * intros Hnil. apply map_eq_nil in Hnil. contradiction.
      * exists k. apply Forall_forall. intros q Hq.
        apply list_elem_of_In, in_map_iff in Hq as (p & <- & Hp).
        rewrite Forall_forall in Hk. apply Hk, list_elem_of_In, Hp.
  - exists false. split; [reflexivity|]. split; [discriminate|].
    intros [_ [k Hk]]. apply Hspec in Hk. exfalso.
    assert (forallb id (List.map (fun p : Z * Z => p.1 mod p.2 =? 0) (combine a b)) = true);
      [|congruence].
    apply forallb_forall. intros d Hd. apply in_map_iff in Hd as (p & <- & Hp).
    rewrite Forall_forall in Hk. apply Z.eqb_eq, Hk, list_elem_of_In, Hp.
Qed.

Lemma lists_are_multiple_exact (l1 l2 : list Z) :
  exact_ratios l1 -> exact_ratios l2 ->
  ∃ found : bool,
    lists_are_multiple l1 l2 = Ok found ∧
    (found = true <-> l1 ≠ [] ∧ proportional l1 l2).
Proof.
  intros H1 H2. unfold proportional.
  destruct (Nat.eq_dec (length l1) (length l2)) as [Hlen|Hlen].
  - unfold lists_are_multiple. rewrite Hlen, Nat.eqb_refl. cbn [negb for_directions].
    destruct (is_multiple_exact l1 l2 Hlen H1 H2) as (f1 & -> & Hf1).
    destruct (is_multiple_exact l2 l1 (eq_sym Hlen) H2 H1) as (f2 & Hm2 & Hf2).
    cbn [mbind result_bind].
    assert (l1 ≠ [] <-> l2 ≠ []) as Hne.
    { destruct l1, l2; simpl in *; try discriminate; split; congruence. }
    destruct f1.
    + exists true. split; [reflexivity|]. split; [|reflexivity].
      intros _. destruct (proj1 Hf1 eq_refl). tauto.
    + rewrite Hm2. cbn [mbind result_bind]. destruct f2.
      * exists true. split; [reflexivity|]. split; [|reflexivity].
        intros _. destruct (proj1 Hf2 eq_refl). tauto.
      * exists false. split; [reflexivity|]. split; [discriminate|].
        intros [Hne1 [_ [Hu|Hu]]].
        -- apply Hf1. tauto.
        -- apply Hf2. tauto.
  - exists false. split; [apply lists_are_multiple_lengths; exact Hlen|].
    split; [discriminate | tauto].
Qed.

Lemma lists_are_multiple_examples :
  lists_are_multiple [2; 4] [1; 2] = Ok true ∧
  lists_are_multiple [1; 2] [2; 4] = Ok true ∧
  lists_are_multiple [3; 4] [1; 2] = Ok false ∧
  lists_are_multiple [3; 5] [6; 10] = Ok true ∧
  lists_are_multiple [3; 5] [9; 10] = Ok false ∧
  lists_are_multiple [2; 4] [1; 2; 3] = Ok false ∧
  lists_are_multiple [] [] = Ok false.
Proof. repeat split; vm_compute; reflexivity. Qed.

(** Beyond 2^53 the quotients are compared after rounding: 2^53 + 1 and 2^53
    are the same double. *)
Lemma lists_are_multiple_rounds :
  lists_are_multiple [2 ^ 53 + 1; 2 ^ 53] [1; 1] = Ok true.
Proof. vm_compute. reflexivity. Qed.

(** ** The search *)

Lemma search_filter cond db :
  Forall (fun doc => is_Ok (cond doc)) db ->
  search cond db = Ok (List.filter (fun doc => passed (cond doc)) db).
Proof.
  induction 1 as [|doc db Hdoc _ IH]; simpl; [reflexivity|].
  destruct (cond doc) as [keep|e]; [|destruct Hdoc].
  cbn [mbind result_bind passed]. rewrite IH. reflexivity.
Qed.

Lemma search_raises cond db doc e :
  doc ∈ db -> cond doc = Raise e ->
  Forall (fun d => is_Ok (cond d) ∨ cond d = Raise e) db ->
  search cond db = Raise e.
Proof.
  intros Hin Hdoc Hall. induction Hall as [|d db Hd _ IH]; [inversion Hin|].
  simpl. destruct Hd as [Hd|Hd].
  - destruct (cond d) as [keep|e'] eqn:Hc; [|destruct Hd].
    cbn [mbind result_bind]. rewrite IH; [reflexivity|].
    apply elem_of_cons in Hin as [->|Hin]; [congruence | exact Hin].
  - rewrite Hd. reflexivity.
Qed.

Lemma query_zero symmetry subl_site_ratios doc :
  0 ∈ subl_site_ratios ->
  is_Ok (query symmetry subl_site_ratios doc) ∨
  query symmetry subl_site_ratios doc = Raise ZeroDivisionError.
Proof.
  intros Hin. unfold query. case_bool_decide; [|left; exact I].
  destruct (Nat.eq_dec (length (List.map sum (sublattice_site_ratios doc)))
                       (length subl_site_ratios)) as [Hlen|Hlen].
  - right. apply lists_are_multiple_zero; assumption.
  - left. rewrite lists_are_multiple_lengths; [exact I | exact Hlen].
Qed.

(** ** C2: what the proportionality test decides *)

(** C2, as stated, fails: [1, 2] against [0, 0] is proportional in the words
    of the specification ([0, 0] is 0 times [1, 2]), but the test raises
    ZeroDivisionError on the first direction and never tries the second. *)
Lemma C2_zero_ratio_is_not_decided :
  proportional [1; 2] [0; 0] ∧
  lists_are_multiple [1; 2] [0; 0] = Raise ZeroDivisionError ∧
  ¬ (lists_are_multiple [1; 2] [0; 0] = Ok true <-> proportional [1; 2] [0; 0]).
Proof.
  assert (proportional [1; 2] [0; 0]) as Hprop.
  { split; [reflexivity|]. right. exists 0. repeat constructor. }
  split; [exact Hprop|]. split; [vm_compute; reflexivity|].
  intros [_ Hback]. specialize (Hback Hprop). vm_compute in Hback. discriminate.
Qed.

(** C2, amended: on lists of nonzero ints below 2^53 in magnitude the test
    returns a boolean, and it returns True exactly when the lists are not
    empty, have the same length and, in one direction or the other, every
    element is exactly divisible by its counterpart with one common
    quotient. *)
Theorem C2_lists_are_multiple_proportional (l1 l2 : list Z) :
  exact_ratios l1 -> exact_ratios l2 ->
  (lists_are_multiple l1 l2 = Ok true <-> l1 ≠ [] ∧ proportional l1 l2) ∧
  (lists_are_multiple l1 l2 = Ok false <-> ¬ (l1 ≠ [] ∧ proportional l1 l2)).
Proof.
  intros H1 H2.
  destruct (lists_are_multiple_exact l1 l2 H1 H2) as (found & -> & Hfound).
  destruct found.
  - split.
    + split; [intros _; apply Hfound; reflexivity | reflexivity].
    + split; [discriminate | intros Hno; exfalso; apply Hno, Hfound; reflexivity].
  - split.
    + split; [discriminate | intros Hyes; apply Hfound in Hyes; discriminate].
    + split; [intros _ Hyes; apply Hfound in Hyes; discriminate | reflexivity].
Qed.

Lemma C2_lists_are_multiple_proportional_witness :
  lists_are_multiple [2; 4] [1; 2] = Ok true <->
  [2; 4] ≠ [] ∧ proportional [2; 4] [1; 2].
Proof.
  apply (C2_lists_are_multiple_proportional [2; 4] [1; 2]);
    repeat constructor; try discriminate; reflexivity.
Defined.

(** ** C10: a zero in the query *)

(** C10: for lists of the same length with a zero in the second, the test
    raises ZeroDivisionError; and so does the whole query as soon as one
    document has the symmetry asked for and as many sublattices as the
    query. *)
Theorem C10_zero_ratio_raises_ZeroDivisionError (l1 l2 : list Z) :
  length l1 = length l2 -> 0 ∈ l2 ->
  lists_are_multiple l1 l2 = Raise ZeroDivisionError ∧
  ∀ db symmetry subl_model doc,
    doc ∈ db ->
    symmetry_symbol doc = symmetry ->
    List.map sum (sublattice_site_ratios doc) = l1 ->
    get_structures_from_database db symmetry subl_model l2 = Raise ZeroDivisionError.
Proof.
  intros Hlen Hin. split; [apply lists_are_multiple_zero; assumption|].
  intros db symmetry subl_model doc Hdoc Hsym Hsums.
  unfold get_structures_from_database. apply (search_raises _ db doc); [exact Hdoc | |].
  - unfold query. rewrite bool_decide_eq_true_2 by exact Hsym.
    rewrite Hsums. apply lists_are_multiple_zero; assumption.
  - apply Forall_forall. intros d _. apply query_zero. exact Hin.
Qed.

Lemma C10_zero_ratio_raises_ZeroDivisionError_witness :
  lists_are_multiple [1; 2] [1; 0] = Raise ZeroDivisionError.
Proof.
  refine (proj1 (C10_zero_ratio_raises_ZeroDivisionError [1; 2] [1; 0] eq_refl _)).
  right. left.
Defined.

(** ** C6: what the query returns *)

(** C6, as stated, fails: the document has the symmetry asked for and its
    ratios are proportional to the query's in the words of the
    specification, yet the query returns nothing: it raises. *)
Lemma C6_zero_ratio_aborts_the_query :
  proportional (List.map sum [[1]]) [0] ∧
  get_structures_from_database [mkdoc 1 "Fm-3m" [[1]]] (py "Fm-3m") [[py "A"]] [0]
  = Raise ZeroDivisionError.
Proof.
  split; [|vm_compute; reflexivity].
  split; [reflexivity|]. right. exists 0. repeat constructor.
Qed.

(** C6, amended: when the query ratios and the summed ratios of every
    document are nonzero ints below 2^53 in magnitude and the query has at
    least one sublattice, the query returns, in the order of the table and
    with nothing else, the documents whose symmetry symbol is equal to the
    one asked for and whose summed ratios are proportional to the query's. *)
Theorem C6_query_returns_the_matches db symmetry subl_model subl_site_ratios :
  subl_site_ratios ≠ [] ->
  exact_ratios subl_site_ratios ->
  Forall (fun doc => exact_ratios (List.map sum (sublattice_site_ratios doc))) db ->
  get_structures_from_database db symmetry subl_model subl_site_ratios
  = Ok (List.filter (fun doc => passed (query symmetry subl_site_ratios doc)) db) ∧
  ∀ doc, doc ∈ db ->
    (passed (query symmetry subl_site_ratios doc) = true <->
     symmetry_symbol doc = symmetry ∧
     proportional (List.map sum (sublattice_site_ratios doc)) subl_site_ratios).
Proof.
  intros Hne Hq Hdb.
  assert (∀ doc, doc ∈ db ->
            ∃ found : bool,
              query symmetry subl_site_ratios doc = Ok found ∧
              (found = true <->
               symmetry_symbol doc = symmetry ∧
               proportional (List.map sum (sublattice_site_ratios doc)) subl_site_ratios))
    as Hquery.
  { intros doc Hdoc. rewrite Forall_forall in Hdb. specialize (Hdb doc Hdoc).
    unfold query. case_bool_decide as Hsym.
    - destruct (lists_are_multiple_exact _ _ Hdb Hq) as (found & -> & Hfound).
      exists found. split; [reflexivity|]. rewrite Hfound. split; [tauto|].
      intros [_ Hprop]. split; [|exact Hprop].
      intros Hnil. destruct Hprop as [Hlen _]. rewrite Hnil in Hlen.
      destruct subl_site_ratios; [congruence | discriminate].
    - exists false. split; [reflexivity|]. split; [discriminate | tauto]. }
  split.
  - unfold get_structures_from_database. apply search_filter.
    apply Forall_forall. intros doc Hdoc.
    destruct (Hquery doc Hdoc) as (found & -> & _). exact I.
  - intros doc Hdoc. destruct (Hquery doc Hdoc) as (found & -> & Hfound). exact Hfound.
Qed.

Lemma C6_query_returns_the_matches_witness :
  get_structures_from_database
    [mkdoc 1 "Fm-3m" [[1; 1]; [2; 2]]; mkdoc 2 "Pm-3m" [[1; 1]; [2; 2]];
     mkdoc 3 "Fm-3m" [[3]; [4]]; mkdoc 4 "Fm-3m" [[1]; [2]]]
    (py "Fm-3m") [[py "A"]; [py "B"]] [1; 2]
  = Ok [mkdoc 1 "Fm-3m" [[1; 1]; [2; 2]]; mkdoc 4 "Fm-3m" [[1]; [2]]].
Proof.
  refine (proj1 (C6_query_returns_the_matches _ (py "Fm-3m") [[py "A"]; [py "B"]] [1; 2] _ _ _)).
  - discriminate.
  - repeat constructor; try discriminate; reflexivity.
  - repeat constructor; try discriminate; reflexivity.
Defined.

(** ** The grammar *)

Lemma span_length_le p s : (span_length p s <= length s)%nat.
Proof. induction s as [|c s IH]; simpl; [lia|]. destruct (p c); simpl; lia. Qed.

Lemma preParse_ge white instring loc : (loc <= preParse white instring loc)%nat.
Proof. unfold preParse. lia. Qed.

(** A label consumes at least one character and ends inside the input. *)
Lemma Word_label_advances instring loc loc' w :
  Word_label instring loc = Some (loc', w) -> (loc < loc' <= length instring)%nat.
Proof.
  unfold Word_label. pose proof (preParse_ge default_white instring loc) as Hpre.
  set (preloc := preParse default_white instring loc) in *.
  destruct (drop preloc instring) as [|c rest] eqn:Hdrop; [discriminate|].
  destruct (is_alpha c); [|discriminate].
  intros [= <- _].
  pose proof (span_length_le is_alphanum_ rest) as Hspan.
  assert (length (drop preloc instring) = S (length rest)) as Hlen by (rewrite Hdrop; reflexivity).
  rewrite length_drop in Hlen. lia.
Qed.

(** Fuel beyond what is left of the input changes nothing. *)
Lemma ZeroOrMore_fuel_enough {A : Type} (p : parser A) instring :
  (∀ loc loc' a, p instring loc = Some (loc', a) -> (loc < loc' <= length instring)%nat) ->
  ∀ fuel1 fuel2 loc,
    (length instring - loc <= fuel1)%nat ->
    (length instring - loc <= fuel2)%nat ->
    ZeroOrMore_fuel fuel1 p instring loc = ZeroOrMore_fuel fuel2 p instring loc.
Proof.
  intros Hadv. induction fuel1 as [|fuel1 IH]; intros [|fuel2] loc H1 H2; simpl;
    try reflexivity.
  - destruct (p instring loc) as [[loc' a]|] eqn:Hp; [|reflexivity].
    apply Hadv in Hp. lia.
  - destruct (p instring loc) as [[loc' a]|] eqn:Hp; [|reflexivity].
    apply Hadv in Hp. lia.
  - destruct (p instring loc) as [[loc' a]|] eqn:Hp; [|reflexivity].
    pose proof (Hadv _ _ _ Hp) as Hloc.
    rewrite (IH fuel2 loc'); [reflexivity | lia | lia].
Qed.

Lemma ZeroOrMore_fuel_bounds {A : Type} (p : parser A) instring :
  (∀ loc loc' a, p instring loc = Some (loc', a) -> (loc < loc' <= length instring)%nat) ->
  ∀ fuel loc loc' l,
    ZeroOrMore_fuel fuel p instring loc = (loc', l) ->
    (loc <= loc')%nat ∧ ((loc <= length instring)%nat -> (loc' <= length instring)%nat).
Proof.
  intros Hadv. induction fuel as [|fuel IH]; intros loc loc' l; simpl.
  - intros [= <- _]. lia.
  - destruct (p instring loc) as [[loc1 a]|] eqn:Hp; [|intros [= <- _]; lia].
    destruct (ZeroOrMore_fuel fuel p instring loc1) as [loc2 l2] eqn:Hrest.
    intros [= <- _]. apply Hadv in Hp. apply IH in Hrest. lia.
Qed.

Lemma OneOrMore_advances {A : Type} (p : parser A) instring loc loc' l :
  (∀ loc loc' a, p instring loc = Some (loc', a) -> (loc < loc' <= length instring)%nat) ->
  OneOrMore p instring loc = Some (loc', l) ->
  (loc < loc' <= length instring)%nat ∧ l ≠ [].
Proof.
  intros Hadv. unfold OneOrMore.
  destruct (p instring loc) as [[loc1 a]|] eqn:Hp; [|discriminate].
  cbn [mbind option_bind].
  destruct (ZeroOrMore_fuel (length instring) p instring loc1) as [loc2 l2] eqn:Hrest.
  intros [= <- <-]. apply Hadv in Hp.
  apply (ZeroOrMore_fuel_bounds p instring Hadv) in Hrest. split; [lia | discriminate].
Qed.

(** [OneOrMore] does not depend on its fuel: any larger one gives the same
    tokens. *)
Lemma OneOrMore_fuel_enough {A : Type} (p : parser A) instring loc extra :
  (∀ loc loc' a, p instring loc = Some (loc', a) -> (loc < loc' <= length instring)%nat) ->
  OneOrMore p instring loc =
  match p instring loc with
  | Some (loc', a) =>
      let '(loc'', l) := ZeroOrMore_fuel (length instring + extra) p instring loc' in
      Some (loc'', a :: l)
  | None => None
  end.
Proof.
  intros Hadv. unfold OneOrMore.
  destruct (p instring loc) as [[loc1 a]|] eqn:Hp; [|reflexivity].
  cbn [mbind option_bind].
  rewrite (ZeroOrMore_fuel_enough p instring Hadv (length instring)
             (length instring + extra) loc1); [reflexivity | lia | lia].
Qed.

Lemma ZeroOrMore_fuel_Forall {A : Type} (Q : A -> Prop) (p : parser A) instring :
  (∀ loc loc' a, p instring loc = Some (loc', a) -> Q a) ->
  ∀ fuel loc loc' l, ZeroOrMore_fuel fuel p instring loc = (loc', l) -> Forall Q l.
Proof.
  intros HQ. induction fuel as [|fuel IH]; intros loc loc' l; simpl.
  - intros [= _ <-]. constructor.
  - destruct (p instring loc) as [[loc1 a]|] eqn:Hp; [|intros [= _ <-]; constructor].
    destruct (ZeroOrMore_fuel fuel p instring loc1) as [loc2 l2] eqn:Hrest.
    intros [= _ <-]. constructor; [exact (HQ _ _ _ Hp) | exact (IH _ _ _ Hrest)].
Qed.

Lemma OneOrMore_Forall {A : Type} (Q : A -> Prop) (p : parser A) instring loc loc' l :
  (∀ loc loc' a, p instring loc = Some (loc', a) -> Q a) ->
  OneOrMore p instring loc = Some (loc', l) -> l ≠ [] ∧ Forall Q l.
Proof.
  intros HQ. unfold OneOrMore.
  destruct (p instring loc) as [[loc1 a]|] eqn:Hp; [|discriminate].
  cbn [mbind option_bind].
  destruct (ZeroOrMore_fuel (length instring) p instring loc1) as [loc2 l2] eqn:Hrest.
  intros [= _ <-]. split; [discriminate|].
  constructor; [exact (HQ _ _ _ Hp) | exact (ZeroOrMore_fuel_Forall Q p instring HQ _ _ _ _ Hrest)].
Qed.

Lemma take_span_length p s : Forall (fun c => p c = true) (take (span_length p s) s).
Proof.
  induction s as [|c s IH]; simpl; [constructor|].
  destruct (p c) eqn:Hc; simpl; constructor; assumption.
Qed.

(** A label is made of ASCII letters, digits and underscores: the
    characters on which [lower], [findall_digits] and [int] are what Python
    computes. *)
Lemma Word_label_chars instring loc loc' w :
  Word_label instring loc = Some (loc', w) ->
  Forall (fun c => is_alphanum_ c = true) w.
Proof.
  unfold Word_label.
  destruct (drop (preParse default_white instring loc) instring) as [|c rest];
    [discriminate|].
  destruct (is_alpha c) eqn:Hc; [|discriminate].
  intros [= _ <-]. cbn [take]. constructor; [|apply take_span_length].
  unfold is_alphanum_. rewrite Hc. reflexivity.
Qed.

Section GrammarFacts.
Context `{Crystallography}.

Lemma float_number_ge instring loc loc' x :
  float_number instring loc = Some (loc', x) -> (loc <= loc')%nat.
Proof.
  unfold float_number, Regex.
  pose proof (preParse_ge default_white instring loc) as Hpre.
  destruct (re_match_length float_regex _) as [n|]; [|discriminate].
  cbn [mbind option_bind]. intros [= <- _]. lia.
Qed.

Lemma vector_ge instring loc loc' v :
  vector_ instring loc = Some (loc', v) -> (loc <= loc')%nat.
Proof.
  unfold vector_.
  destruct (float_number instring loc) as [[loc1 x]|] eqn:H1; [|discriminate].
  cbn [mbind option_bind].
  destruct (float_number instring loc1) as [[loc2 y]|] eqn:H2; [|discriminate].
  cbn [mbind option_bind].
  destruct (float_number instring loc2) as [[loc3 z]|] eqn:H3; [|discriminate].
  cbn [mbind option_bind]. intros [= <- _].
  apply float_number_ge in H1, H2, H3. lia.
Qed.

Lemma atom_advances instring loc loc' record :
  atom instring loc = Some (loc', record) ->
  (loc < loc' <= length instring)%nat ∧ record.2 ≠ [].
Proof.
  unfold atom.
  destruct (vector_ instring loc) as [[loc1 position]|] eqn:Hv; [|discriminate].
  cbn [mbind option_bind].
  destruct (OneOrMore Word_label instring loc1) as [[loc2 atoms]|] eqn:Hw; [|discriminate].
  cbn [mbind option_bind]. intros [= <- <-].
  apply vector_ge in Hv.
  apply (OneOrMore_advances Word_label) in Hw; [|apply Word_label_advances].
  simpl. split; [lia | tauto].
Qed.

Lemma atom_tokens instring loc loc' record :
  atom instring loc = Some (loc', record) ->
  record.2 ≠ [] ∧
  Forall (fun token => Forall (fun c => is_alphanum_ c = true) token) record.2.
Proof.
  unfold atom.
  destruct (vector_ instring loc) as [[loc1 position]|]; [|discriminate].
  cbn [mbind option_bind].
  destruct (OneOrMore Word_label instring loc1) as [[loc2 atoms]|] eqn:Hw; [|discriminate].
  cbn [mbind option_bind]. intros [= _ <-]. simpl.
  apply (OneOrMore_Forall _ Word_label instring loc1 loc2); [|exact Hw].
  intros loc0 loc0' w. apply Word_label_chars.
Qed.

Lemma parse_atoms lattice_in parsed :
  _parse_atat_lattice lattice_in = Ok parsed ->
  atat_atoms parsed ≠ [] ∧
  Forall (fun record : vector * list pystr =>
            record.2 ≠ [] ∧
            Forall (fun token => Forall (fun c => is_alphanum_ c = true) token) record.2)
         (atat_atoms parsed).
Proof.
  unfold _parse_atat_lattice, atat_lattice_grammer.
  destruct (coord_sys _ _) as [[loc1 c]|]; [|discriminate].
  cbn [mbind option_bind].
  destruct (lattice_ _ _) as [[loc2 l]|]; [|discriminate].
  cbn [mbind option_bind].
  destruct (OneOrMore atom _ loc2) as [[loc3 atoms]|] eqn:Hatoms; [|discriminate].
  cbn [mbind option_bind]. intros [= <-]. simpl.
  apply (OneOrMore_Forall _ atom (expandtabs lattice_in) loc2 loc3); [|exact Hatoms].
  intros loc loc' a. apply atom_tokens.
Qed.

(** What [_parse_atat_lattice] returns has at least one atom, and every atom
    at least one token. *)
Lemma parse_grammar_shaped lattice_in parsed :
  _parse_atat_lattice lattice_in = Ok parsed -> grammar_shaped parsed.
Proof.
  intros Hparse. destruct (parse_atoms _ _ Hparse) as [Hne Hall].
  split; [exact Hne|]. eapply Forall_impl; [exact Hall|]. intros record [Htokens _].
  exact Htokens.
Qed.

(** X6: from the text, [rename=False] never gives a structure. *)
Lemma lat_in_to_sqs_no_rename atat_lattice_in :
  lat_in_to_sqs atat_lattice_in false = Raise ParseException ∨
  ∃ m, lat_in_to_sqs atat_lattice_in false = Raise (NotImplementedError m).
Proof.
  unfold lat_in_to_sqs.
  destruct (_parse_atat_lattice atat_lattice_in) as [parsed|e] eqn:Hparse.
  - right. cbn [mbind result_bind].
    destruct (sqs_of_parsed_data_no_rename parsed (parse_grammar_shaped _ _ Hparse))
      as (position & tokens & rest & _ & ->). eauto.
  - left. unfold _parse_atat_lattice in Hparse.
    destruct (atat_lattice_grammer _ _) as [[loc parsed]|]; [discriminate|].
    injection Hparse as <-. reflexivity.
Qed.




End GrammarFacts.

(** ** The pattern of a number, at the end of a number *)









(** ** The parsers, at a place of a text that is laid out *)











Section LayoutFacts.
Context `{Crystallography}.


Lemma ends_number_space post : ends_number ([cp " "] ++ post).
Proof. reflexivity. Qed.












(** ** The atoms of a text that is laid out *)
















End LayoutFacts.

(** ** C5: the two forms of the coordinate system *)




(** ** The order of [sorted] *)

Lemma str_leb_total x y : str_leb x y = true ∨ str_leb y x = true.
Proof.
  revert y; induction x as [|a x IH]; intros [|b y]; simpl; auto.
  destruct (N.ltb_spec a b) as [Hab|Hab]; [auto|].
  destruct (N.ltb_spec b a) as [Hba|Hba]; [auto|].
  assert (a = b) as -> by lia. rewrite N.eqb_refl. apply IH.
Qed.

Lemma str_leb_antisym x y : str_leb x y = true -> str_leb y x = true -> x = y.
Proof.
  revert y; induction x as [|a x IH]; intros [|b y]; simpl; try discriminate; auto.
  destruct (N.ltb_spec a b) as [Hab|Hab].
  - destruct (N.ltb_spec b a) as [Hba|Hba]; [lia|].
    destruct (N.eqb_spec b a) as [->|Hne]; [lia | discriminate].
  - destruct (N.eqb_spec a b) as [->|Hne]; [|discriminate].
    rewrite N.ltb_irrefl, N.eqb_refl. intros Hxy Hyx. f_equal. apply IH; assumption.
Qed.

Lemma str_leb_trans x y z : str_leb x y = true -> str_leb y z = true -> str_leb x z = true.
Proof.
  revert y z; induction x as [|a x IH]; intros [|b y] [|c z]; simpl;
    try discriminate; auto.
  destruct (N.ltb_spec a b) as [Hab|Hab].
  - intros _. destruct (N.ltb_spec b c) as [Hbc|Hbc].
    + intros _. destruct (N.ltb_spec a c); [reflexivity | lia].
    + destruct (N.eqb_spec b c) as [->|Hne]; [|discriminate].
      intros _. destruct (N.ltb_spec a c); [reflexivity | lia].
  - destruct (N.eqb_spec a b) as [->|Hne]; [|discriminate].
    intros Hxy. destruct (N.ltb_spec b c) as [Hbc|Hbc]; [reflexivity|].
    destruct (N.eqb_spec b c) as [->|Hne]; [|discriminate].
    apply IH. exact Hxy.
Qed.

#[global] Instance str_le_total : Total str_le.
Proof. intros x y. apply str_leb_total. Qed.

#[global] Instance str_le_trans : Transitive str_le.
Proof. intros x y z. apply str_leb_trans. Qed.

#[global] Instance str_le_antisym : AntiSymm (=) str_le.
Proof. intros x y. apply str_leb_antisym. Qed.

Lemma sorted_Sorted l : Sorted str_le (sorted l).
Proof. apply (Sorted_merge_sort str_le). Qed.

Lemma sorted_Permutation l : sorted l ≡ₚ l.
Proof. apply (merge_sort_Permutation str_le). Qed.

Lemma sorted_NoDup l : NoDup l -> NoDup (sorted l).
Proof. intros Hl. rewrite sorted_Permutation. exact Hl. Qed.

(** [sorted] forgets the order it is given: what [sorted(d.keys())] and
    [sorted(list(set(...)))] rely on. *)
Lemma sorted_order_independent l l' : l ≡ₚ l' -> sorted l = sorted l'.
Proof.
  intros Hperm. apply (Sorted_unique str_le); try apply sorted_Sorted.
  rewrite !sorted_Permutation. exact Hperm.
Qed.

(** ** The sublattice model does not depend on the order of the atoms *)

Lemma add_species_comm m subl1 atom1 subl2 atom2 :
  add_species (add_species m subl1 atom1) subl2 atom2 =
  add_species (add_species m subl2 atom2) subl1 atom1.
Proof.
  unfold add_species. destruct (decide (subl1 = subl2)) as [->|Hne].
  - rewrite !lookup_insert_eq, !insert_insert_eq. simpl. f_equal.
    rewrite <- !(assoc_L (∪)). f_equal. apply (comm_L (∪)).
  - rewrite !lookup_insert_ne by congruence.
    apply insert_insert_ne. congruence.
Qed.

Section PermutationFacts.
Context `{Crystallography}.

Lemma for_atoms_same_model atoms st1 st2 :
  subl_model st1 = subl_model st2 ->
  same_model (for_atoms true st1 atoms) (for_atoms true st2 atoms).
Proof.
  revert st1 st2; induction atoms as [|[position tokens] atoms IH]; intros st1 st2 Hm;
    cbn [for_atoms].
  - exact Hm.
  - rewrite !loop_body_decode.
    destruct (decode_label true tokens) as [[subl subl_atom]|e]; [|exact I].
    cbn [mbind result_bind]. apply IH. simpl. rewrite Hm. reflexivity.
Qed.

Lemma for_atoms_Permutation atoms atoms' :
  atoms ≡ₚ atoms' ->
  ∀ st1 st2, subl_model st1 = subl_model st2 ->
    same_model (for_atoms true st1 atoms) (for_atoms true st2 atoms').
Proof.
  induction 1 as [|[position tokens] l l' _ IH
                  |[position1 tokens1] [position2 tokens2] l
                  |l l' l'' _ IH1 _ IH2]; intros st1 st2 Hm.
  - exact Hm.
  - cbn [for_atoms]. rewrite !loop_body_decode.
    destruct (decode_label true tokens) as [[subl subl_atom]|e]; [|exact I].
    cbn [mbind result_bind]. apply IH. simpl. rewrite Hm. reflexivity.
  - cbn [for_atoms]. rewrite !loop_body_decode.
    destruct (decode_label true tokens1) as [[subl1 atom1]|e1] eqn:Hd1;
      destruct (decode_label true tokens2) as [[subl2 atom2]|e2] eqn:Hd2;
      cbn [mbind result_bind for_atoms];
      rewrite ?loop_body_decode, ?Hd1, ?Hd2; cbn [mbind result_bind];
      try exact I.
    apply for_atoms_same_model. simpl. rewrite Hm. apply add_species_comm.
  - specialize (IH1 st1 st1 eq_refl). specialize (IH2 st1 st2 Hm).
    unfold same_model in *.
    destruct (for_atoms true st1 l), (for_atoms true st1 l'), (for_atoms true st2 l'');
      try tauto; congruence.
Qed.

Lemma for_atoms_mirrors atoms st st' :
  for_atoms true st atoms = Ok st' ->
  ∃ labels,
    species_list st' = species_list st ++ labels ∧
    Forall2 (fun (record : vector * list pystr) (label : pystr) =>
               ∃ subl subl_atom,
                 decode_label true record.2 = Ok (subl, subl_atom) ∧
                 label = py "X" ++ subl ++ subl_atom)
            atoms labels ∧
    species_positions st' =
    species_positions st ++ List.map (fun record : vector * list pystr => list_of_vector record.1) atoms.
Proof.
  revert st; induction atoms as [|[position tokens] atoms IH]; intros st; cbn [for_atoms].
  - intros [= <-]. exists []. rewrite !app_nil_r. repeat split. constructor.
  - rewrite loop_body_decode.
    destruct (decode_label true tokens) as [[subl subl_atom]|e] eqn:Hd; [|discriminate].
    cbn [mbind result_bind]. intros Hrest.
    destruct (IH _ Hrest) as (labels & Hspecies & Hlabels & Hpositions).
    exists ((py "X" ++ subl ++ subl_atom) :: labels).
    simpl in Hspecies, Hpositions. rewrite <- !app_assoc in Hspecies, Hpositions.
    split; [exact Hspecies|]. split; [|exact Hpositions].
    constructor; [|exact Hlabels]. simpl. rewrite Hd. eauto.
Qed.

Lemma sqs_of_parsed_data_mirrors parsed sqs :
  sqs_of_parsed_data parsed true = Ok sqs -> mirrors_atoms sqs (atat_atoms parsed).
Proof.
  unfold sqs_of_parsed_data. destruct (atat_lattice parsed) as [[l1 l2] l3].
  destruct (for_atoms true loop_init (atat_atoms parsed)) as [st|e] eqn:Hloop; [|discriminate].
  cbn [mbind result_bind]. intros [= <-].
  destruct (for_atoms_mirrors _ _ _ Hloop) as (labels & Hspecies & Hlabels & Hpositions).
  unfold mirrors_atoms. cbn [species coords]. rewrite Hspecies, Hpositions.
  split; [exact Hlabels | reflexivity].
Qed.

Lemma sorted_keys_canonical (m : gmap pystr (gset pystr)) :
  Sorted str_le (sorted_keys m) ∧ NoDup (sorted_keys m).
Proof.
  unfold sorted_keys. split; [apply sorted_Sorted|].
  apply sorted_NoDup, NoDup_elements.
Qed.

Lemma sorted_species_canonical (m : gmap pystr (gset pystr)) :
  Forall (fun e => Sorted str_le e ∧ NoDup e)
         (List.map (fun s => sorted (elements (m !!! s))) (sorted_keys m)).
Proof.
  apply Forall_forall. intros e He.
  apply list_elem_of_In, in_map_iff in He as (s & <- & _).
  split; [apply sorted_Sorted | apply sorted_NoDup, NoDup_elements].
Qed.

End PermutationFacts.

(** ** C7: the order of the atom records *)

(** C7: permuting the atom records of a parsed file changes neither whether
    the build succeeds nor, when it does, the sublattice model and the
    sublattice names, which are sorted in ascending order and free of
    duplicates; the species labels and the positions follow the records of
    each file in their order. *)
Theorem C7_model_is_order_independent `{Crystallography} parsed atoms' :
  atat_atoms parsed ≡ₚ atoms' ->
  match sqs_of_parsed_data parsed true,
        sqs_of_parsed_data (with_atoms parsed atoms') true with
  | Ok sqs, Ok sqs' =>
      sublattice_model sqs' = sublattice_model sqs ∧
      sublattice_names sqs' = sublattice_names sqs ∧
      Sorted str_le (sublattice_names sqs) ∧
      NoDup (sublattice_names sqs) ∧
      Forall (fun e => Sorted str_le e ∧ NoDup e) (sublattice_model sqs) ∧
      mirrors_atoms sqs (atat_atoms parsed) ∧
      mirrors_atoms sqs' atoms'
  | Raise _, Raise _ => True
  | _, _ => False
  end.
Proof.
  intros Hperm.
  pose proof (sqs_of_parsed_data_mirrors parsed) as Hm1.
  pose proof (sqs_of_parsed_data_mirrors (with_atoms parsed atoms')) as Hm2.
  pose proof (for_atoms_Permutation _ _ Hperm loop_init loop_init eq_refl) as Hsame.
  unfold sqs_of_parsed_data in *. cbn [with_atoms atat_atoms atat_lattice atat_coord_system] in *.
  destruct (atat_lattice parsed) as [[l1 l2] l3].
  destruct (for_atoms true loop_init (atat_atoms parsed)) as [st|e];
    destruct (for_atoms true loop_init atoms') as [st'|e']; cbn [mbind result_bind] in *;
    try exact Hsame; try exact I.
  simpl in Hsame. cbn [sublattice_model sublattice_names]. rewrite Hsame.
  split; [reflexivity|]. split; [reflexivity|].
  destruct (sorted_keys_canonical (subl_model st')) as [Hsorted Hnodup].
  split; [exact Hsorted|]. split; [exact Hnodup|].
  split; [apply sorted_species_canonical|].
  split; [apply Hm1 | apply Hm2]; rewrite ?Hsame; reflexivity.
Qed.

Lemma C7_model_is_order_independent_witness :
  match sqs_of_parsed_data
          (parsed_with_atoms [(origin, [py "b_B"]); (centre, [py "a_A"])]) true,
        sqs_of_parsed_data
          (with_atoms (parsed_with_atoms [(origin, [py "b_B"]); (centre, [py "a_A"])])
                      [(centre, [py "a_A"]); (origin, [py "b_B"])]) true with
  | Ok sqs, Ok sqs' =>
      sublattice_model sqs' = sublattice_model sqs ∧
      sublattice_names sqs' = sublattice_names sqs ∧
      Sorted str_le (sublattice_names sqs) ∧
      NoDup (sublattice_names sqs) ∧
      Forall (fun e => Sorted str_le e ∧ NoDup e) (sublattice_model sqs) ∧
      mirrors_atoms sqs
        (atat_atoms (parsed_with_atoms [(origin, [py "b_B"]); (centre, [py "a_A"])])) ∧
      mirrors_atoms sqs' [(centre, [py "a_A"]); (origin, [py "b_B"])]
  | Raise _, Raise _ => True
  | _, _ => False
  end.
Proof.
  apply (C7_model_is_order_independent (H := symbolic)
           (parsed_with_atoms [(origin, [py "b_B"]); (centre, [py "a_A"])])).
  apply perm_swap.
Defined.

(** The build of the witness succeeds: its model is [["a"], ["b"]] under the
    names ["a", "b"] whichever record comes first. *)
Lemma order_independent_example :
  (sqs_of_parsed_data
     (parsed_with_atoms [(origin, [py "b_B"]); (centre, [py "a_A"])]) true
   ≫= fun sqs => Ok (sublattice_names sqs, sublattice_model sqs, species sqs))
  = Ok ([py "a"; py "b"], [[py "a"]; [py "b"]], [py "Xbb"; py "Xaa"]) ∧
  (sqs_of_parsed_data
     (parsed_with_atoms [(centre, [py "a_A"]); (origin, [py "b_B"])]) true
   ≫= fun sqs => Ok (sublattice_names sqs, sublattice_model sqs, species sqs))
  = Ok ([py "a"; py "b"], [[py "a"]; [py "b"]], [py "Xaa"; py "Xbb"]).
Proof. split; vm_compute; reflexivity. Qed.

(** * Further properties of the module *)

(** ** What the grammar lets through as a label *)

Lemma Word_label_is_label instring loc loc' w :
  Word_label instring loc = Some (loc', w) -> is_label w.
Proof.
  unfold Word_label.
  destruct (drop (preParse default_white instring loc) instring) as [|c rest];
    [discriminate|].
  destruct (is_alpha c) eqn:Hc; [|discriminate].
  intros [= _ <-]. cbn [take]. exists c, (take (span_length is_alphanum_ rest) rest).
  split; [reflexivity|]. split; [exact Hc | apply take_span_length].
Qed.

(** X1: [_parse_atat_lattice] returns at least one atom; every atom has at least
    one token, and every token starts with an ASCII letter and goes on with
    letters, digits and underscores. *)
Theorem parse_gives_labelled_atoms `{Crystallography} lattice_in parsed :
  _parse_atat_lattice lattice_in = Ok parsed ->
  atat_atoms parsed ≠ [] ∧
  Forall (fun record : vector * list pystr => record.2 ≠ [] ∧ Forall is_label record.2)
         (atat_atoms parsed).
Proof.
  unfold _parse_atat_lattice, atat_lattice_grammer.
  destruct (coord_sys _ _) as [[loc1 c]|]; [|discriminate].
  cbn [mbind option_bind].
  destruct (lattice_ _ _) as [[loc2 l]|]; [|discriminate].
  cbn [mbind option_bind].
  destruct (OneOrMore atom _ loc2) as [[loc3 atoms]|] eqn:Hatoms; [|discriminate].
  cbn [mbind option_bind]. intros [= <-]. simpl.
  apply (OneOrMore_Forall _ atom (expandtabs lattice_in) loc2 loc3); [|exact Hatoms].
  intros loc loc' [position tokens]. unfold atom.
  destruct (vector_ _ loc) as [[loc4 position']|]; [|discriminate].
  cbn [mbind option_bind].
  destruct (OneOrMore Word_label _ loc4) as [[loc5 tokens']|] eqn:Hw; [|discriminate].
  cbn [mbind option_bind]. intros [= _ _ <-]. simpl.
  apply (OneOrMore_Forall _ Word_label (expandtabs lattice_in) loc4 loc5); [|exact Hw].
  intros loc0 loc0' w. apply Word_label_is_label.
Qed.

Lemma parse_gives_labelled_atoms_witness :
  atat_atoms
    {| atat_coord_system :=
         coord_lengths_angles (vec "3.8" "3.8" "3.8") (vec "90" "90" "90");
       atat_lattice := unit_axes;
       atat_atoms := [(origin, [py "a_A"]); (centre, [py "a_B"])] |} ≠ [] ∧
  Forall (fun record : @vector symbolic * list pystr =>
            record.2 ≠ [] ∧ Forall is_label record.2)
         (atat_atoms
            {| atat_coord_system :=
                 coord_lengths_angles (vec "3.8" "3.8" "3.8") (vec "90" "90" "90");
               atat_lattice := unit_axes;
               atat_atoms := [(origin, [py "a_A"]); (centre, [py "a_B"])] |}).
Proof.
  apply (parse_gives_labelled_atoms (H := symbolic) lengths_angles_one_line).
  vm_compute. reflexivity.
Defined.

(** ** Upper and lower case in labels *)

Lemma lower_char_idempotent c : lower_char (lower_char c) = lower_char c.
Proof.
  unfold lower_char, is_upper.
  destruct (N.leb_spec 65 c) as [H1|H1]; destruct (N.leb_spec c 90) as [H2|H2]; simpl;
    try (destruct (N.leb_spec 65 c); destruct (N.leb_spec c 90); simpl; (reflexivity || lia)).
  destruct (N.leb_spec 65 (c + 32)); destruct (N.leb_spec (c + 32) 90); simpl;
    (reflexivity || lia).
Qed.

Lemma lower_idempotent s : lower (lower s) = lower s.
Proof.
  unfold lower. rewrite List.map_map. apply List.map_ext. apply lower_char_idempotent.
Qed.

Lemma decode_label_lower rename tokens :
  decode_label rename (List.map lower tokens) = decode_label rename tokens.
Proof.
  unfold decode_label. rewrite length_map.
  destruct (1 <? length tokens)%nat; [reflexivity|].
  destruct tokens as [|atom tokens]; [reflexivity|].
  cbn [List.map getitem lookup list_lookup mbind result_bind].
  rewrite lower_idempotent. reflexivity.
Qed.

(** A token written out is a label. *)
Ltac concrete_label :=
  eexists _, _; split; [reflexivity | split; [reflexivity | repeat constructor]].

Ltac concrete_labels :=
  unfold labelled;
  repeat first [ apply Forall_nil_2 | apply Forall_cons_2; cbn [snd] | concrete_label ].

(** X2: the build does not see the case of the labels: lower-casing every
    token of the file gives the same structure, or the same error. *)
Theorem labels_are_case_insensitive `{Crystallography} parsed rename :
  labelled (atat_atoms parsed) ->
  sqs_of_parsed_data (with_atoms parsed (lower_atoms (atat_atoms parsed))) rename =
  sqs_of_parsed_data parsed rename.
Proof.
  intros _.
  assert (∀ atoms st, for_atoms rename st (lower_atoms atoms) = for_atoms rename st atoms)
    as Hloop.
  { induction atoms as [|[position tokens] atoms IH]; intros st; [reflexivity|].
    cbn [lower_atoms List.map for_atoms fst snd]. rewrite !loop_body_decode.
    rewrite decode_label_lower.
    destruct (decode_label rename tokens) as [[subl subl_atom]|e]; [|reflexivity].
    cbn [mbind result_bind]. apply IH. }
  unfold sqs_of_parsed_data, with_atoms. cbn [atat_atoms atat_lattice atat_coord_system].
  rewrite Hloop. reflexivity.
Qed.

Lemma labels_are_case_insensitive_witness :
  sqs_of_parsed_data
    (with_atoms (parsed_with_atoms [(origin, [py "a_A"]); (centre, [py "a_B"])])
       (lower_atoms [(origin, [py "a_A"]); (centre, [py "a_B"])])) true =
  sqs_of_parsed_data (parsed_with_atoms [(origin, [py "a_A"]); (centre, [py "a_B"])]) true.
Proof.
  apply (labels_are_case_insensitive (H := symbolic)
           (parsed_with_atoms [(origin, [py "a_A"]); (centre, [py "a_B"])]) true).
  concrete_labels.
Defined.

(** ** How a label is decoded *)

Lemma split_app_sep sep a rest :
  sep ∉ a -> split sep (a ++ sep :: rest) = a :: split sep rest.
Proof.
  induction a as [|c a IH]; intros Hno; simpl.
  - rewrite N.eqb_refl. reflexivity.
  - apply not_elem_of_cons in Hno as [Hne Hno].
    destruct (N.eqb_spec c sep) as [->|_]; [congruence|].
    rewrite (IH Hno). reflexivity.
Qed.

Lemma lower_app a b : lower (a ++ b) = lower a ++ lower b.
Proof. unfold lower. apply List.map_app. Qed.

(** X3: of a label only the part before the first '_' (the sublattice) and
    the part between the first and the second '_' (the species) are used,
    both in lower case; whatever follows a second '_' is dropped without a
    word. *)
Theorem decode_label_uses_two_parts (subl_part species_part rest : pystr) :
  label_chars subl_part -> label_chars species_part -> label_chars rest ->
  cp "_" ∉ subl_part -> cp "_" ∉ species_part ->
  decode_label true [subl_part ++ cp "_" :: species_part ++ cp "_" :: rest] =
  decode_label true [subl_part ++ cp "_" :: species_part] ∧
  decode_label true [subl_part ++ cp "_" :: species_part] =
  translate_digits (lower subl_part) ≫= fun subl => Ok (subl, lower species_part).
Proof.
  intros _ _ _ Hsubl Hspecies.
  apply lower_no_sep in Hsubl, Hspecies.
  assert (lower [cp "_"] = [cp "_"]) as Hsep by reflexivity.
  unfold decode_label.
  cbn [length Nat.ltb Nat.leb getitem lookup list_lookup mbind result_bind].
  change (subl_part ++ cp "_" :: species_part ++ cp "_" :: rest)
    with (subl_part ++ [cp "_"] ++ species_part ++ [cp "_"] ++ rest).
  change (subl_part ++ cp "_" :: species_part)
    with (subl_part ++ [cp "_"] ++ species_part).
  rewrite !lower_app, Hsep. cbn [app].
  rewrite !(split_app_sep _ _ _ Hsubl), (split_app_sep _ _ _ Hspecies),
    (split_no_sep _ _ Hspecies).
  cbn -[translate_digits lower].
  destruct (translate_digits (lower subl_part)); split; reflexivity.
Qed.

Lemma decode_label_uses_two_parts_witness :
  decode_label true [py "a" ++ cp "_" :: py "B" ++ cp "_" :: py "extra"] =
  decode_label true [py "a" ++ cp "_" :: py "B"] ∧
  decode_label true [py "a" ++ cp "_" :: py "B"] =
  translate_digits (lower (py "a")) ≫= fun subl => Ok (subl, lower (py "B")).
Proof.
  apply (decode_label_uses_two_parts (py "a") (py "B") (py "extra"));
    try (repeat constructor; fail); apply (bool_decide_unpack _); vm_compute; exact I.
Defined.

(** ** Digits to letters, where the code does what its comment says *)

Lemma findall_digits_none s run :
  Forall (fun c => is_digit c = false) s ->
  findall_digits_aux s run = match run with [] => [] | _ => [rev run] end.
Proof.
  intros Hs. revert run; induction Hs as [|c s Hc _ IH]; intros run; simpl; [reflexivity|].
  rewrite Hc. destruct run; rewrite IH; reflexivity.
Qed.

Lemma findall_digits_run run s acc :
  Forall (fun c => is_digit c = true) run ->
  findall_digits_aux (run ++ s) acc = findall_digits_aux s (rev run ++ acc).
Proof.
  intros Hrun. revert acc; induction Hrun as [|c run Hc _ IH]; intros acc; simpl;
    [reflexivity|].
  rewrite Hc, IH, <- app_assoc. reflexivity.
Qed.

Lemma findall_digits_single pre run post :
  Forall (fun c => is_digit c = false) pre ->
  Forall (fun c => is_digit c = true) run -> run ≠ [] ->
  Forall (fun c => is_digit c = false) post ->
  findall_digits (pre ++ run ++ post) = [run].
Proof.
  intros Hpre Hrun Hne Hpost. unfold findall_digits.
  induction Hpre as [|c pre Hc _ IH]; simpl.
  - rewrite (findall_digits_run _ _ _ Hrun), app_nil_r.
    rewrite (findall_digits_none _ _ Hpost).
    destruct (rev run) eqn:Hrev.
    + apply (f_equal (@rev N)) in Hrev. rewrite rev_involutive in Hrev. contradiction.
    + rewrite <- Hrev, rev_involutive. reflexivity.
  - rewrite Hc. exact IH.
Qed.

Lemma is_prefix_head_differs old c s d :
  is_digit d = true -> is_digit c = false -> is_prefix (d :: old) (c :: s) = false.
Proof.
  intros Hd Hc. simpl. destruct (N.eqb_spec d c) as [->|_]; [congruence | reflexivity].
Qed.

Lemma replace_aux_none d old new s :
  is_digit d = true -> Forall (fun c => is_digit c = false) s ->
  replace_aux (d :: old) new O s = s.
Proof.
  intros Hd. induction 1 as [|c s Hc _ IH]; [reflexivity|].
  cbn [replace_aux]. rewrite (is_prefix_head_differs _ _ _ _ Hd Hc), IH. reflexivity.
Qed.

Lemma is_prefix_app p s : is_prefix p (p ++ s) = true.
Proof. induction p as [|c p IH]; simpl; [reflexivity|]. rewrite N.eqb_refl. exact IH. Qed.

Lemma replace_aux_skip old new l s :
  replace_aux old new (length l) (l ++ s) = replace_aux old new O s.
Proof.
  induction l as [|c l IH]; [reflexivity|]. simpl. exact IH.
Qed.

Lemma replace_single pre run new post :
  Forall (fun c => is_digit c = false) pre ->
  Forall (fun c => is_digit c = true) run -> run ≠ [] ->
  Forall (fun c => is_digit c = false) post ->
  replace run new (pre ++ run ++ post) = pre ++ new ++ post.
Proof.
  intros Hpre Hrun Hne Hpost.
  destruct run as [|d run]; [congruence|]. inversion Hrun as [|? ? Hd _]; subst.
  unfold replace. induction Hpre as [|c pre Hc _ IH].
  - cbn [app replace_aux].
    change (d :: run ++ post) with ((d :: run) ++ post) at 1.
    rewrite is_prefix_app. cbn [length Nat.pred].
    rewrite replace_aux_skip, (replace_aux_none _ _ _ _ Hd Hpost). reflexivity.
  - cbn [app replace_aux].
    destruct pre as [|c' pre'].
    + cbn [app]. rewrite (is_prefix_head_differs _ _ _ _ Hd Hc).
      cbn [app] in IH. rewrite IH. reflexivity.
    + cbn [app]. rewrite (is_prefix_head_differs _ _ _ _ Hd Hc).
      cbn [app] in IH. rewrite IH. reflexivity.
Qed.

Lemma int_digits_nonneg_aux run acc :
  Forall (fun c => is_digit c = true) run -> 0 <= acc ->
  0 <= fold_left (fun acc c => 10 * acc + (Z.of_N c - 48)) run acc.
Proof.
  intros Hrun. revert acc; induction Hrun as [|c run Hc _ IH]; intros acc Hacc; simpl;
    [exact Hacc|].
  apply IH. unfold is_digit in Hc. apply andb_true_iff in Hc as [H1 H2].
  apply N.leb_le in H1, H2. lia.
Qed.

Lemma int_digits_nonneg run : Forall (fun c => is_digit c = true) run -> 0 <= int run.
Proof. intros Hrun. apply int_digits_nonneg_aux; [exact Hrun | lia]. Qed.

(** A sublattice name without digits is left as it is. *)
Lemma translate_digits_no_digit subl :
  Forall (fun c => is_digit c = false) subl -> translate_digits subl = Ok subl.
Proof.
  intros Hno. unfold translate_digits, findall_digits.
  rewrite (findall_digits_none _ _ Hno). reflexivity.
Qed.

(** X4: a sublattice name with one run of digits, as in "a1" or "g12": the
    run, read as the number d, becomes the one character of code point 96 + d
    (so 1 gives "a", 2 gives "b"), and nothing else changes; the name stays
    as it is when it has no digit at all. *)
Theorem translate_digits_single_run (pre run post : pystr) :
  label_chars pre -> label_chars post ->
  Forall (fun c => is_digit c = false) pre ->
  Forall (fun c => is_digit c = true) run ->
  Forall (fun c => is_digit c = false) post ->
  (length run <= 4300)%nat ->
  96 + int run < 1114112 ->
  translate_digits (pre ++ run ++ post) =
  Ok (match run with
      | [] => pre ++ post
      | _ => pre ++ [Z.to_N (96 + int run)] ++ post
      end).
Proof.
  intros _ _ Hpre Hrun Hpost _ Hchr. destruct run as [|d rest].
  - apply translate_digits_no_digit. apply Forall_app. split; assumption.
  - cbv iota. remember (d :: rest) as run0 eqn:Heq.
    assert (run0 ≠ []) as Hne by (rewrite Heq; discriminate).
    unfold translate_digits. rewrite (findall_digits_single _ _ _ Hpre Hrun Hne Hpost).
    cbn [replace_items]. unfold chr.
    pose proof (int_digits_nonneg _ Hrun) as Hint.
    destruct (Z.leb_spec 0 (96 + int run0)); [|lia].
    destruct (Z.ltb_spec (96 + int run0) 1114112); [|lia].
    cbn [andb mbind result_bind].
    rewrite (replace_single _ _ _ _ Hpre Hrun Hne Hpost). reflexivity.
Qed.

Lemma translate_digits_single_run_witness :
  translate_digits (py "g" ++ py "12" ++ py "x") =
  Ok (py "g" ++ [Z.to_N (96 + int (py "12"))] ++ py "x").
Proof.
  apply (translate_digits_single_run (py "g") (py "12") (py "x"));
    [repeat constructor .. | cbn; lia | vm_compute; reflexivity].
Defined.

(** ** What the sublattice model holds *)

Lemma species_of_add_species m subl subl_atom k :
  species_of (add_species m subl subl_atom) k =
  if decide (subl = k) then species_of m subl ∪ {[subl_atom]} else species_of m k.
Proof.
  unfold species_of, add_species. destruct (decide (subl = k)) as [->|Hne].
  - rewrite lookup_insert_eq. reflexivity.
  - rewrite lookup_insert_ne by exact Hne. reflexivity.
Qed.

Lemma add_species_nonempty m subl subl_atom :
  (∀ k S, m !! k = Some S -> S ≠ ∅) ->
  ∀ k S, add_species m subl subl_atom !! k = Some S -> S ≠ ∅.
Proof.
  intros Hm k S. unfold add_species. destruct (decide (subl = k)) as [->|Hne].
  - rewrite lookup_insert_eq. intros [= <-] Hempty.
    assert (subl_atom ∈ (∅ : gset pystr)) as Hin; [|exact (not_elem_of_empty _ Hin)].
    rewrite <- Hempty. apply elem_of_union_r, elem_of_singleton. reflexivity.
  - rewrite lookup_insert_ne by exact Hne. apply Hm.
Qed.

Section ModelFacts.
Context `{Crystallography}.

Lemma for_atoms_species atoms st st' :
  for_atoms true st atoms = Ok st' ->
  (∀ k S, subl_model st !! k = Some S -> S ≠ ∅) ->
  (∀ k S, subl_model st' !! k = Some S -> S ≠ ∅) ∧
  ∀ subl subl_atom,
    subl_atom ∈ species_of (subl_model st') subl <->
    subl_atom ∈ species_of (subl_model st) subl ∨ has_atom atoms subl subl_atom.
Proof.
  revert st; induction atoms as [|[position tokens] atoms IH]; intros st; cbn [for_atoms].
  - intros [= <-] Hwf. split; [exact Hwf|]. intros subl subl_atom. split; [auto|].
    intros [Hin|(record & Hrecord & _)]; [exact Hin | inversion Hrecord].
  - rewrite loop_body_decode.
    destruct (decode_label true tokens) as [[subl0 atom0]|e] eqn:Hd; [|discriminate].
    cbn [mbind result_bind]. intros Hrest Hwf.
    destruct (IH _ Hrest) as [Hwf' Hspecies].
    { cbn [record_atom subl_model]. apply add_species_nonempty. exact Hwf. }
    split; [exact Hwf'|]. intros subl subl_atom. rewrite Hspecies.
    cbn [record_atom subl_model]. rewrite species_of_add_species.
    unfold has_atom. split.
    + intros [Hin|(record & Hrecord & Hdecode)].
      * destruct (decide (subl0 = subl)) as [->|Hne]; [|left; exact Hin].
        apply elem_of_union in Hin as [Hin|Hin]; [left; exact Hin|].
        apply elem_of_singleton in Hin as ->.
        right. exists (position, tokens). split; [left | exact Hd].
      * right. exists record. split; [right; exact Hrecord | exact Hdecode].
    + intros [Hin|(record & Hrecord & Hdecode)].
      * left. destruct (decide (subl0 = subl)) as [->|Hne]; [|exact Hin].
        apply elem_of_union_l. exact Hin.
      * apply elem_of_cons in Hrecord as [->|Hrecord].
        -- left. cbn [snd] in Hdecode. rewrite Hd in Hdecode. injection Hdecode as -> ->.
           rewrite decide_True by reflexivity.
           apply elem_of_union_r, elem_of_singleton. reflexivity.
        -- right. exists record. split; assumption.
Qed.

End ModelFacts.

(** X5: when the build succeeds, the sublattice names are exactly the
    sublattices of the atoms, and the entry of the model that stands at the
    place of a name holds exactly the species of the atoms of that
    sublattice; the model has one entry per name. *)
Theorem model_lists_the_atoms `{Crystallography} parsed sqs :
  labelled (atat_atoms parsed) ->
  sqs_of_parsed_data parsed true = Ok sqs ->
  length (sublattice_model sqs) = length (sublattice_names sqs) ∧
  (∀ subl, subl ∈ sublattice_names sqs <->
           ∃ subl_atom, has_atom (atat_atoms parsed) subl subl_atom) ∧
  (∀ i subl entry,
     sublattice_names sqs !! i = Some subl ->
     sublattice_model sqs !! i = Some entry ->
     ∀ subl_atom, subl_atom ∈ entry <-> has_atom (atat_atoms parsed) subl subl_atom).
Proof.
  intros _. unfold sqs_of_parsed_data. destruct (atat_lattice parsed) as [[l1 l2] l3].
  destruct (for_atoms true loop_init (atat_atoms parsed)) as [st|e] eqn:Hloop; [|discriminate].
  cbn [mbind result_bind]. intros [= <-]. cbn [sublattice_model sublattice_names].
  destruct (for_atoms_species _ _ _ Hloop) as [Hwf Hspecies].
  { intros k S. cbn [loop_init subl_model]. rewrite lookup_empty. discriminate. }
  assert (∀ subl subl_atom,
            subl_atom ∈ species_of (subl_model st) subl <->
            has_atom (atat_atoms parsed) subl subl_atom) as Hmodel.
  { intros subl subl_atom. rewrite Hspecies. cbn [loop_init subl_model].
    unfold species_of at 1. rewrite lookup_empty. cbn [default].
    split; [intros [Hin|Hin]; [exfalso; exact (not_elem_of_empty _ Hin) | exact Hin] | auto]. }
  assert (∀ subl, subl ∈ sorted_keys (subl_model st) <->
                  ∃ S, subl_model st !! subl = Some S) as Hkeys.
  { intros subl. unfold sorted_keys. rewrite sorted_Permutation, elem_of_elements, elem_of_dom.
    reflexivity. }
  split; [apply length_map|]. split.
  - intros subl. rewrite Hkeys. split.
    + intros [S HS]. destruct (set_choose_L S (Hwf _ _ HS)) as [subl_atom Hin].
      exists subl_atom. apply Hmodel. unfold species_of. rewrite HS. exact Hin.
    + intros [subl_atom Hatom]. apply Hmodel in Hatom. unfold species_of in Hatom.
      destruct (subl_model st !! subl) as [S|]; [eauto|].
      exfalso. exact (not_elem_of_empty _ Hatom).
  - intros i subl entry Hname Hentry subl_atom.
    rewrite list_lookup_fmap, Hname in Hentry. injection Hentry as <-.
    assert (subl ∈ sorted_keys (subl_model st)) as Hin
      by (apply list_elem_of_lookup; eauto).
    apply Hkeys in Hin as [S HS].
    rewrite sorted_Permutation, elem_of_elements, (lookup_total_correct _ _ _ HS).
    rewrite <- Hmodel. unfold species_of. rewrite HS. reflexivity.
Qed.

Lemma model_lists_the_atoms_witness :
  ∃ sqs,
    sqs_of_parsed_data
      (parsed_with_atoms [(origin, [py "a_A"]); (centre, [py "a_B"])]) true = Ok sqs ∧
    length (sublattice_model sqs) = length (sublattice_names sqs).
Proof.
  eexists. split; [vm_compute; reflexivity|].
  refine (proj1 (model_lists_the_atoms (H := symbolic)
                   (parsed_with_atoms [(origin, [py "a_A"]); (centre, [py "a_B"])]) _ _ _)).
  - concrete_labels.
  - vm_compute. reflexivity.
Defined.

(** ** More on the proportionality test *)

Lemma proportional_sym l1 l2 : proportional l1 l2 -> proportional l2 l1.
Proof. intros [Hlen Hdir]. split; [symmetry; exact Hlen | tauto]. Qed.

(** X7: on nonzero ints below 2^53 the order of the two lists does not matter:
    "[1, 2] will match [2, 4] and vice versa". *)
Theorem lists_are_multiple_symmetric (l1 l2 : list Z) :
  exact_ratios l1 -> exact_ratios l2 ->
  lists_are_multiple l1 l2 = lists_are_multiple l2 l1.
Proof.
  intros H1 H2.
  destruct (lists_are_multiple_exact l1 l2 H1 H2) as (f1 & -> & Hf1).
  destruct (lists_are_multiple_exact l2 l1 H2 H1) as (f2 & -> & Hf2).
  f_equal.
  assert (f1 = true <-> f2 = true) as Hiff.
  { rewrite Hf1, Hf2. split; intros [Hne Hprop]; (split; [|apply proportional_sym; exact Hprop]);
      destruct Hprop as [Hlen _]; destruct l1, l2; simpl in *; congruence. }
  destruct f1, f2; try reflexivity.
  - symmetry. apply Hiff. reflexivity.
  - apply Hiff. reflexivity.
Qed.

Lemma lists_are_multiple_symmetric_witness :
  lists_are_multiple [2; 4] [1; 2] = lists_are_multiple [1; 2] [2; 4].
Proof.
  apply lists_are_multiple_symmetric; repeat constructor; try discriminate; reflexivity.
Defined.

(** X8: a list matches every nonzero integer multiple of itself, itself
    included, as long as the numbers stay below 2^53. *)
Theorem lists_are_multiple_scaled (k : Z) (l : list Z) :
  l ≠ [] -> exact_ratios l -> exact_ratios (List.map (Z.mul k) l) ->
  lists_are_multiple (List.map (Z.mul k) l) l = Ok true ∧
  lists_are_multiple l (List.map (Z.mul k) l) = Ok true.
Proof.
  intros Hne Hl Hkl.
  assert (uniform_multiple (List.map (Z.mul k) l) l) as Huni.
  { exists k. unfold exact_ratios in Hl. clear Hne Hkl.
    induction Hl as [|y l [Hy _] _ IH]; simpl; constructor; [|exact IH].
    split; [apply Z.mod_mul | apply Z.div_mul]; exact Hy. }
  assert (proportional (List.map (Z.mul k) l) l) as Hprop.
  { split; [apply length_map | left; exact Huni]. }
  assert (List.map (Z.mul k) l ≠ []) as Hne'.
  { destruct l; [congruence | discriminate]. }
  split.
  - destruct (lists_are_multiple_exact _ _ Hkl Hl) as (found & -> & Hfound).
    f_equal. apply Hfound. split; assumption.
  - destruct (lists_are_multiple_exact _ _ Hl Hkl) as (found & -> & Hfound).
    f_equal. apply Hfound. split; [exact Hne | apply proportional_sym; exact Hprop].
Qed.

Lemma lists_are_multiple_scaled_witness :
  lists_are_multiple (List.map (Z.mul 3) [1; 2]) [1; 2] = Ok true ∧
  lists_are_multiple [1; 2] (List.map (Z.mul 3) [1; 2]) = Ok true.
Proof.
  apply lists_are_multiple_scaled;
    [discriminate | repeat constructor; try discriminate; reflexivity
                  | repeat constructor; try discriminate; reflexivity].
Defined.

(** X9: sums that are all zero match any nonzero query of as many sublattices,
    whatever its ratios (0 is 0 times anything); the other way round the
    test raises. *)
Theorem lists_are_multiple_all_zero (l1 l2 : list Z) :
  l1 ≠ [] -> length l1 = length l2 ->
  Forall (fun x => x = 0) l1 -> Forall (fun y => y ≠ 0) l2 ->
  lists_are_multiple l1 l2 = Ok true ∧
  lists_are_multiple l2 l1 = Raise ZeroDivisionError.
Proof.
  intros Hne Hlen Hzero Hnonzero. split.
  - unfold lists_are_multiple. rewrite Hlen, Nat.eqb_refl. cbn [negb for_directions].
    assert (Forall (fun p : Z * Z => p.1 = 0 ∧ p.2 ≠ 0) (combine l1 l2)) as Hpairs.
    { apply Forall_forall. intros [x y] Hin. apply list_elem_of_In in Hin.
      pose proof (in_combine_l _ _ _ _ Hin) as Hx. pose proof (in_combine_r _ _ _ _ Hin) as Hy.
      rewrite Forall_forall in Hzero. rewrite Forall_forall in Hnonzero.
      apply list_elem_of_In in Hx, Hy. split; [apply Hzero | apply Hnonzero]; assumption. }
    assert (is_multiple l1 l2 = Ok true) as ->; [|reflexivity].
    unfold is_multiple.
    rewrite (mapM_Ok_map _ (fun _ => true)).
    2:{ eapply Forall_impl; [exact Hpairs|]. intros [x y] [Hx Hy]. simpl in *. subst x.
        unfold py_mod. destruct (Z.eqb_spec y 0); [contradiction|].
        rewrite Z.mod_0_l by exact Hy. reflexivity. }
    cbn [mbind result_bind].
    assert (forallb id (List.map (fun _ : Z * Z => true) (combine l1 l2)) = true) as ->.
    { apply forallb_forall. intros b Hb. apply in_map_iff in Hb as (p & <- & _). reflexivity. }
    rewrite (mapM_Ok_map _ (fun _ => 0)).
    2:{ eapply Forall_impl; [exact Hpairs|]. intros [x y] [Hx Hy]. simpl in *. subst x.
        unfold truediv_exact. rewrite Z.div_0_l by exact Hy. reflexivity. }
    cbn [mbind result_bind]. f_equal. apply Nat.eqb_eq, one_value. split.
    + destruct l1 as [|x l1]; [congruence|]. destruct l2; discriminate.
    + exists 0. apply Forall_forall. intros q Hq.
      apply list_elem_of_In, in_map_iff in Hq as (p & <- & _). reflexivity.
  - apply lists_are_multiple_zero; [symmetry; exact Hlen|].
    destruct l1 as [|x l1]; [congruence|]. inversion Hzero; subst. left.
Qed.

Lemma lists_are_multiple_all_zero_witness :
  lists_are_multiple [0; 0] [3; 5] = Ok true ∧
  lists_are_multiple [3; 5] [0; 0] = Raise ZeroDivisionError.
Proof.
  apply lists_are_multiple_all_zero;
    [discriminate | reflexivity | repeat constructor | repeat constructor; discriminate].
Defined.

(** ** More on the query *)

Lemma search_Ok cond db results :
  search cond db = Ok results ->
  results = List.filter (fun doc => passed (cond doc)) db ∧
  Forall (fun doc => is_Ok (cond doc)) db.
Proof.
  revert results; induction db as [|doc db IH]; intros results; simpl.
  - intros [= <-]. split; [reflexivity | constructor].
  - destruct (cond doc) as [keep|e] eqn:Hdoc; [|discriminate]. cbn [mbind result_bind passed].
    destruct (search cond db) as [rest|e]; [|discriminate]. cbn [mbind result_bind].
    intros [= <-]. destruct (IH rest eq_refl) as [-> Hall].
    split; [reflexivity | constructor; [rewrite Hdoc; exact I | exact Hall]].
Qed.

(** X10: whatever the ratios are, when the query returns, what it returns is a
    part of the table in the order of the table, and every document in it
    has exactly the symmetry asked for and passed the ratio test. *)
Theorem query_results_are_matches db symmetry subl_model subl_site_ratios results :
  get_structures_from_database db symmetry subl_model subl_site_ratios = Ok results ->
  sublist results db ∧
  ∀ doc, doc ∈ results ->
    symmetry_symbol doc = symmetry ∧
    lists_are_multiple (List.map sum (sublattice_site_ratios doc)) subl_site_ratios = Ok true.
Proof.
  unfold get_structures_from_database. intros Hsearch.
  apply search_Ok in Hsearch as [-> _]. split.
  - induction db as [|doc db IH]; simpl; [constructor|].
    destruct (passed _); [apply sublist_skip | apply sublist_cons]; exact IH.
  - intros doc Hdoc. apply list_elem_of_In, filter_In in Hdoc as [_ Hpassed].
    unfold query in Hpassed. case_bool_decide as Hsym; [|discriminate].
    split; [exact Hsym|].
    destruct (lists_are_multiple _ _) as [[|]|e]; [reflexivity | discriminate | discriminate].
Qed.

Lemma query_results_are_matches_witness :
  sublist [mkdoc 1 "Fm-3m" [[1; 1]; [2; 2]]]
          [mkdoc 1 "Fm-3m" [[1; 1]; [2; 2]]; mkdoc 2 "Pm-3m" [[1; 1]; [2; 2]]] ∧
  ∀ doc, doc ∈ [mkdoc 1 "Fm-3m" [[1; 1]; [2; 2]]] ->
    symmetry_symbol doc = py "Fm-3m" ∧
    lists_are_multiple (List.map sum (sublattice_site_ratios doc)) [1; 2] = Ok true.
Proof.
  apply (query_results_are_matches
           [mkdoc 1 "Fm-3m" [[1; 1]; [2; 2]]; mkdoc 2 "Pm-3m" [[1; 1]; [2; 2]]]
           (py "Fm-3m") [] [1; 2]).
  vm_compute. reflexivity.
Defined.

(** X11: the symmetry is tested first: when no document of the table has the
    symmetry asked for, the ratio test is never run and the query returns the
    empty list, even for ratios on which the test would raise. *)
Theorem query_other_symmetry_is_empty db symmetry subl_model subl_site_ratios :
  Forall (fun doc => symmetry_symbol doc ≠ symmetry) db ->
  get_structures_from_database db symmetry subl_model subl_site_ratios = Ok [].
Proof.
  unfold get_structures_from_database.
  induction 1 as [|doc db Hdoc _ IH]; cbn [search]; [reflexivity|].
  assert (query symmetry subl_site_ratios doc = Ok false) as ->.
  { unfold query. rewrite bool_decide_eq_false_2 by exact Hdoc. reflexivity. }
  cbn [mbind result_bind]. rewrite IH. reflexivity.
Qed.

Lemma query_other_symmetry_is_empty_witness :
  get_structures_from_database [mkdoc 1 "Pm-3m" [[1]]] (py "Fm-3m") [] [0] = Ok [].
Proof.
  apply query_other_symmetry_is_empty. repeat constructor. discriminate.
Defined.

(** ** [split] and [join] *)

Lemma split_cases sep s :
  ((sep ∉ s) ∧ split sep s = [s]) ∨
  ((sep ∈ s) ∧ ∃ k v vs, (sep ∉ k) ∧ split sep s = k :: v :: vs).
Proof.
  induction s as [|c s IH]; simpl.
  - left. split; [apply not_elem_of_nil | reflexivity].
  - destruct (N.eqb_spec c sep) as [->|Hne].
    + right. split; [left|]. destruct (split sep s) as [|v vs] eqn:Hs.
      * destruct IH as [[_ Heq]|(_ & k & v & vs & _ & Heq)]; discriminate.
      * exists [], v, vs. split; [apply not_elem_of_nil | reflexivity].
    + destruct IH as [[Hno ->]|(Hin & k & v & vs & Hno & ->)].
      * left. split; [|reflexivity]. apply not_elem_of_cons. split; [congruence | exact Hno].
      * right. split; [right; exact Hin|]. exists (c :: k), v, vs. split; [|reflexivity].
        apply not_elem_of_cons. split; [congruence | exact Hno].
Qed.

Lemma not_elem_of_join c sep l :
  c ∉ sep -> Forall (fun x => c ∉ x) l -> c ∉ Sqsgen.join sep l.
Proof.
  intros Hsep. induction 1 as [|x l Hx Hl IH]; [apply not_elem_of_nil|].
  destruct l as [|y l]; [exact Hx|].
  change (Sqsgen.join sep (x :: y :: l)) with (x ++ sep ++ Sqsgen.join sep (y :: l)).
  rewrite !elem_of_app. tauto.
Qed.

(** Splitting what was joined gives the pieces back, when no piece holds
    the separator. *)
Lemma split_join sep l :
  l ≠ [] -> Forall (fun x => sep ∉ x) l -> split sep (Sqsgen.join [sep] l) = l.
Proof.
  intros Hne Hall. induction Hall as [|x l Hx Hl IH]; [congruence|].
  destruct l as [|y l]; [apply split_no_sep; exact Hx|].
  change (Sqsgen.join [sep] (x :: y :: l)) with (x ++ sep :: Sqsgen.join [sep] (y :: l)).
  rewrite (split_app_sep _ _ _ Hx), IH; [reflexivity | discriminate].
Qed.

(** ** [parse_atatsqs_path] *)

Module SqsgenFacts.
Import Sqsgen.

Lemma split_nonempty sep s : split sep s ≠ [].
Proof.
  destruct (split_cases sep s) as [[_ ->]|(_ & k & v & vs & _ & ->)]; discriminate.
Qed.

(** What a step of either loop leaves of the state it was given. *)
Definition extends (st st' : fields_state) : Prop :=
  ∃ names occs,
    configuration_var st' = configuration_var st ++ names ∧
    occupancies_var st' = occupancies_var st ++ occs ∧
    length names = length occs ∧
    Forall (fun occ => occ ≠ []) occs.

Lemma extends_refl st : extends st st.
Proof. exists [], []. rewrite !app_nil_r. repeat split. constructor. Qed.

Lemma extends_trans st1 st2 st3 : extends st1 st2 -> extends st2 st3 -> extends st1 st3.
Proof.
  intros (n1 & o1 & Hc1 & Ho1 & Hl1 & Hf1) (n2 & o2 & Hc2 & Ho2 & Hl2 & Hf2).
  exists (n1 ++ n2), (o1 ++ o2). rewrite Hc2, Hc1, Ho2, Ho1, <- !app_assoc, !length_app.
  repeat split; [lia | apply Forall_app; split; assumption].
Qed.

(** One part of the path: an IndexError, or a new state. *)
Lemma path_param_step_cases st part :
  (((cp "=" ∉ part) ∧ part ≠ py "sqsdb") ∧ path_param_step st part = Raise IndexError) ∨
  (((cp "=" ∈ part) ∨ part = py "sqsdb") ∧
   ∃ st', path_param_step st part = Ok st' ∧ extends st st' ∧
          (level_var st' = None <-> level_var st = None ∧ key_of part ≠ py "lev")).
Proof.
  unfold path_param_step, key_of.
  destruct (split_cases (cp "=") part) as [[Hno ->]|(Hin & k & v & vs & Hno & ->)];
    cbn [getitem lookup list_lookup mbind result_bind head default].
  - case_bool_decide as Hskip.
    + right. split; [right; exact Hskip|]. exists st. split; [reflexivity|].
      split; [apply extends_refl|].
      split; [intros Hl; split; [exact Hl|] | tauto].
      rewrite Hskip. intros Heq. vm_compute in Heq. discriminate.
    + left. split; [split; assumption|]. case_bool_decide; reflexivity.
  - right. split; [left; exact Hin|]. case_bool_decide as Hskip.
    + exists st. split; [reflexivity|]. split; [apply extends_refl|].
      split; [intros Hl; split; [exact Hl|] | tauto].
      rewrite Hskip. intros Heq. vm_compute in Heq. discriminate.
    + case_bool_decide as Hlev.
      * eexists. split; [reflexivity|]. split.
        -- exists [], []. cbn [configuration_var occupancies_var]. rewrite !app_nil_r.
           repeat split. constructor.
        -- cbn [level_var]. split; [discriminate | tauto].
      * eexists. split; [reflexivity|]. split.
        -- exists [k], [split (cp ",") v]. cbn [configuration_var occupancies_var].
           repeat split. constructor; [apply split_nonempty | constructor].
        -- cbn [level_var]. tauto.
Qed.

Lemma for_path_params parts st :
  (Exists (fun part => (cp "=" ∉ part) ∧ part ≠ py "sqsdb") parts ∧
   for_fields path_param_step st parts = Raise IndexError) ∨
  (Forall (fun part => (cp "=" ∈ part) ∨ part = py "sqsdb") parts ∧
   ∃ st', for_fields path_param_step st parts = Ok st' ∧ extends st st' ∧
          (level_var st' = None <->
           level_var st = None ∧ Forall (fun part => key_of part ≠ py "lev") parts)).
Proof.
  revert st; induction parts as [|part parts IH]; intros st; cbn [for_fields].
  - right. split; [constructor|]. exists st. split; [reflexivity|].
    split; [apply extends_refl|]. split; [intros Hl; split; [exact Hl | constructor] | tauto].
  - destruct (path_param_step_cases st part) as [[Hbad ->]|(Hgood & st1 & -> & Hext1 & Hlevel1)];
      cbn [mbind result_bind].
    + left. split; [left; exact Hbad | reflexivity].
    + destruct (IH st1) as [[Hbad ->]|(Hgoods & st2 & -> & Hext2 & Hlevel2)].
      * left. split; [right; exact Hbad | reflexivity].
      * right. split; [constructor; assumption|]. exists st2. split; [reflexivity|].
        split; [exact (extends_trans _ _ _ Hext1 Hext2)|].
        rewrite Hlevel2, Hlevel1. split.
        -- intros [[Hl Hk] Hks]. split; [exact Hl | constructor; assumption].
        -- intros [Hl Hks]. inversion Hks; subst. tauto.
Qed.

(** A field "name=o1,o2,..." of the path appends the name and the list of
    its occupancies. *)
Lemma path_param_step_field st name occupancy :
  no_char (py "_=") name -> name ≠ py "sqsdb" -> name ≠ py "lev" ->
  occupancy ≠ [] -> Forall (no_char (py "_=,")) occupancy ->
  path_param_step st (name ++ py "=" ++ join (py ",") occupancy) =
  Ok {| level_var := level_var st;
        configuration_var := configuration_var st ++ [name];
        occupancies_var := occupancies_var st ++ [occupancy] |}.
Proof.
  intros Hname Hsqsdb Hlev Hne Hocc. unfold path_param_step.
  change (py "=" ++ join (py ",") occupancy) with (cp "=" :: join [cp ","] occupancy).
  assert (cp "=" ∉ name) as Heq.
  { inversion Hname as [|? ? _ Hrest]; subst. inversion Hrest; subst. assumption. }
  assert (cp "=" ∉ join [cp ","] occupancy) as Hval.
  { apply not_elem_of_join.
    - intros Hin. apply list_elem_of_singleton in Hin. vm_compute in Hin. discriminate.
    - eapply Forall_impl; [exact Hocc|]. intros x Hx.
      inversion Hx as [|? ? _ Hrest]; subst. inversion Hrest; subst. assumption. }
  rewrite (split_app_sep _ _ _ Heq), (split_no_sep _ _ Hval).
  cbn [getitem lookup list_lookup mbind result_bind].
  rewrite !bool_decide_eq_false_2 by assumption.
  rewrite split_join; [reflexivity | exact Hne |].
  eapply Forall_impl; [exact Hocc|]. intros x Hx.
  inversion Hx as [|? ? _ Hrest]; subst. inversion Hrest as [|? ? _ Hrest']; subst.
  inversion Hrest'; subst. assumption.
Qed.

Lemma for_path_fields names : forall occs st,
  Forall (fun name => no_char (py "_=") name ∧ name ≠ py "sqsdb" ∧ name ≠ py "lev") names ->
  Forall (fun occupancy => occupancy ≠ [] ∧ Forall (no_char (py "_=,")) occupancy) occs ->
  length names = length occs ->
  for_fields path_param_step st
    (zip_with (fun name occupancy => name ++ py "=" ++ join (py ",") occupancy) names occs) =
  Ok {| level_var := level_var st;
        configuration_var := configuration_var st ++ names;
        occupancies_var := occupancies_var st ++ occs |}.
Proof.
  induction names as [|name names IH]; intros [|occupancy occs] st Hnames Hoccs Hlen;
    try discriminate; cbn [zip_with for_fields].
  - rewrite !app_nil_r. destruct st; reflexivity.
  - inversion Hnames as [|? ? (Hname & Hsqsdb & Hlev) Hnames']; subst.
    inversion Hoccs as [|? ? (Hne & Hocc) Hoccs']; subst.
    rewrite (path_param_step_field st name occupancy Hname Hsqsdb Hlev Hne Hocc).
    cbn [mbind result_bind]. rewrite (IH occs _ Hnames' Hoccs'); [|simpl in Hlen; lia].
    cbn [level_var configuration_var occupancies_var]. rewrite <- !app_assoc. reflexivity.
Qed.

(** No part of a written path holds the separator of the parts. *)
Lemma path_of_parts c :
  writable c ->
  Forall (fun part => cp "_" ∉ part)
    (py "sqsdb" :: (py "lev=" ++ level c) ::
     zip_with (fun name occupancy => name ++ py "=" ++ join (py ",") occupancy)
              (configuration c) (occupancies c)).
Proof.
  intros (Hlevel & Hnames & Hoccs & _).
  constructor; [apply (bool_decide_unpack _); vm_compute; exact I|].
  constructor.
  { inversion Hlevel; subst. rewrite elem_of_app. intros [Hin|Hin]; [|tauto].
    revert Hin. apply (bool_decide_unpack (_ ∉ _)). vm_compute. exact I. }
  generalize (occupancies c) Hoccs. clear Hoccs.
  induction Hnames as [|name names (Hname & _) _ IH]; intros occs Hoccs;
    [constructor|].
  destruct Hoccs as [|occupancy occs (_ & Hocc) Hoccs]; cbn [zip_with]; constructor.
  - inversion Hname; subst. rewrite !elem_of_app. intros [Hin|[Hin|Hin]]; [tauto | |].
    + revert Hin. apply (bool_decide_unpack (_ ∉ _)). vm_compute. exact I.
    + revert Hin. apply not_elem_of_join.
      * apply (bool_decide_unpack _). vm_compute. exact I.
      * eapply Forall_impl; [exact Hocc|]. intros x Hx. inversion Hx; subst. assumption.
  - apply IH. exact Hoccs.
Qed.

(** The names that the loop over the parts of a path keeps. *)
Lemma for_path_params_names parts : forall st st',
  for_fields path_param_step st parts = Ok st' ->
  configuration_var st' =
  configuration_var st ++
  filter (fun key => key ≠ py "sqsdb" ∧ key ≠ py "lev") (key_of <$> parts).
Proof.
  induction parts as [|part parts IH]; intros st st' Hrun; cbn [for_fields] in Hrun.
  - injection Hrun as <-. rewrite app_nil_r. reflexivity.
  - destruct (path_param_step st part) as [st1|e] eqn:Hstep; [|discriminate].
    cbn [mbind result_bind] in Hrun. rewrite (IH _ _ Hrun). clear IH Hrun.
    rewrite fmap_cons. revert Hstep. unfold path_param_step, key_of.
    destruct (split_cases (cp "=") part) as [[_ ->]|(_ & k & v & vs & _ & ->)];
      cbn [getitem lookup list_lookup mbind result_bind head default];
      repeat case_bool_decide; intros Hstep; try discriminate; injection Hstep as <-;
      cbn [configuration_var];
      first [ rewrite filter_cons_False by tauto; reflexivity
            | rewrite filter_cons_True by tauto; rewrite <- app_assoc; reflexivity ].
Qed.

(** ** [read_sqsgen_in] *)

(** One field of a line: an IndexError, or a new state. *)
Lemma field_step_cases st field :
  ((cp "=" ∉ field) ∧ field_step st field = Raise IndexError) ∨
  ((cp "=" ∈ field) ∧
   ∃ st', field_step st field = Ok st' ∧ extends st st' ∧
          (level_var st' = None <-> level_var st = None ∧ key_of field ≠ py "level") ∧
          (key_of field ≠ py "level" -> level_var st' = level_var st) ∧
          configuration_var st' =
          configuration_var st ++ filter (fun key => key ≠ py "level") [key_of field]).
Proof.
  unfold field_step, key_of.
  destruct (split_cases (cp "=") field) as [[Hno ->]|(Hin & k & v & vs & Hno & ->)];
    cbn [getitem lookup list_lookup mbind result_bind head default].
  - left. split; [exact Hno|]. case_bool_decide; reflexivity.
  - right. split; [exact Hin|]. case_bool_decide as Hlevel.
    + eexists. split; [reflexivity|]. cbn [level_var configuration_var]. split.
      * exists [], []. cbn [configuration_var occupancies_var]. rewrite !app_nil_r.
        repeat split. constructor.
      * split; [split; [discriminate | tauto]|]. split; [tauto|].
        rewrite filter_cons_False by tauto. rewrite filter_nil, app_nil_r. reflexivity.
    + eexists. split; [reflexivity|]. cbn [level_var configuration_var]. split.
      * exists [k], [split (cp ",") v]. cbn [configuration_var occupancies_var].
        repeat split. constructor; [apply split_nonempty | constructor].
      * split; [tauto|]. split; [reflexivity|].
        rewrite filter_cons_True by tauto. rewrite filter_nil. reflexivity.
Qed.

Lemma for_line_fields fields st :
  (Exists (fun field => cp "=" ∉ field) fields ∧
   for_fields field_step st fields = Raise IndexError) ∨
  (Forall (fun field => cp "=" ∈ field) fields ∧
   ∃ st', for_fields field_step st fields = Ok st' ∧ extends st st' ∧
          (level_var st' = None <->
           level_var st = None ∧ Forall (fun field => key_of field ≠ py "level") fields) ∧
          (Forall (fun field => key_of field ≠ py "level") fields ->
           level_var st' = level_var st) ∧
          configuration_var st' =
          configuration_var st ++ filter (fun key => key ≠ py "level") (key_of <$> fields)).
Proof.
  revert st; induction fields as [|field fields IH]; intros st; cbn [for_fields].
  - right. split; [constructor|]. exists st. split; [reflexivity|].
    split; [apply extends_refl|].
    split; [split; [intros Hl; split; [exact Hl | constructor] | tauto]|].
    split; [reflexivity|]. rewrite app_nil_r. reflexivity.
  - destruct (field_step_cases st field)
      as [[Hbad ->]|(Hgood & st1 & -> & Hext1 & Hlevel1 & Hkeep1 & Hnames1)];
      cbn [mbind result_bind].
    + left. split; [left; exact Hbad | reflexivity].
    + destruct (IH st1) as [[Hbad ->]|(Hgoods & st2 & -> & Hext2 & Hlevel2 & Hkeep2 & Hnames2)].
      * left. split; [right; exact Hbad | reflexivity].
      * right. split; [constructor; assumption|]. exists st2. split; [reflexivity|].
        split; [exact (extends_trans _ _ _ Hext1 Hext2)|]. split; [|split].
        -- rewrite Hlevel2, Hlevel1. split.
           ++ intros [[Hl Hk] Hks]. split; [exact Hl | constructor; assumption].
           ++ intros [Hl Hks]. inversion Hks; subst. tauto.
        -- intros Hks. inversion Hks; subst. rewrite Hkeep2, Hkeep1; auto.
        -- rewrite Hnames2, Hnames1, <- app_assoc, fmap_cons.
           f_equal. symmetry. apply (filter_app _ [key_of field]).
Qed.

Lemma Exists_Forall_excluded {A} (P Q : A -> Prop) (l : list A) :
  (forall x, P x -> Q x -> False) -> Exists P l -> Forall Q l -> False.
Proof.
  intros HPQ HP HQ. apply Exists_exists in HP as (x & Hx & HPx).
  rewrite Forall_forall in HQ. exact (HPQ x HPx (HQ x Hx)).
Qed.

(** One line of the file: an IndexError, an UnboundLocalError, or one more
    folder and one more configuration. *)
Lemma line_body_cases st eachline :
  (¬ fields_have_values eachline ∧ line_body st eachline = Raise IndexError) ∨
  (fields_have_values eachline ∧ leveli st = None ∧ ¬ gives_level eachline ∧
   line_body st eachline = Raise UnboundLocalError) ∨
  (fields_have_values eachline ∧ (leveli st ≠ None ∨ gives_level eachline) ∧
   ∃ c, line_body st eachline =
        Ok {| f_count := S (f_count st);
              sqs_folders := sqs_folders st ++ [folder_of eachline];
              sqs_config := <[f_count st := c]> (sqs_config st);
              leveli := Some (level c) |} ∧
        (¬ gives_level eachline -> leveli st = Some (level c)) ∧
        configuration c =
          filter (fun key => key ≠ py "level") (key_of <$> fields_of eachline) ∧
        length (occupancies c) = length (configuration c) ∧
        Forall (fun occupancy => occupancy ≠ []) (occupancies c)).
Proof.
  unfold line_body, fields_have_values, gives_level.
  set (st0 := {| level_var := leveli st; configuration_var := []; occupancies_var := [] |}).
  destruct (for_line_fields (fields_of eachline) st0)
    as [[Hbad ->]|(Hgood & st' & -> & Hext & Hlevel & Hkeep & Hnames)];
    cbn [mbind result_bind].
  - left. split; [|reflexivity]. intros Hgood.
    apply (Exists_Forall_excluded _ _ _ (fun x (H1 : cp "=" ∉ x) H2 => H1 H2) Hbad Hgood).
  - right. cbn [level_var configuration_var st0] in Hlevel, Hkeep, Hnames.
    destruct Hext as (names & occs & Hc & Ho & Hlen & Hocc).
    cbn [configuration_var occupancies_var st0 app] in Hc, Ho.
    destruct (level_var st') as [lvl|] eqn:Hl; cbn [read_var mbind result_bind].
    + right. split; [exact Hgood|]. split.
      * destruct (leveli st) as [l0|]; [left; discriminate|]. right.
        destruct (decide (Exists (fun field => key_of field = py "level") (fields_of eachline)))
          as [Hex|Hnex]; [exact Hex|].
        assert (Some lvl = None) as Habs; [|discriminate].
        apply Hlevel. split; [reflexivity|].
        apply not_Exists_Forall in Hnex; [|intros x; apply _].
        eapply Forall_impl; [exact Hnex|]. intros x Hx Heq. exact (Hx Heq).
      * exists {| level := lvl; configuration := configuration_var st';
                  occupancies := occupancies_var st' |}.
        split; [reflexivity|]. cbn [level configuration occupancies].
        split; [|split; [exact Hnames|split; [congruence|]]].
        -- intros Hnogive. symmetry. apply Hkeep.
           apply not_Exists_Forall in Hnogive; [|intros x; apply _].
           eapply Forall_impl; [exact Hnogive|]. intros x Hx Heq. exact (Hx Heq).
        -- rewrite Ho. exact Hocc.
    + left. destruct (proj1 Hlevel eq_refl) as [Hnone Hkeys].
      split; [exact Hgood|]. split; [exact Hnone|]. split; [|reflexivity].
      intros Hgive. apply (Exists_Forall_excluded _ _ _ (fun x H1 (H2 : _ ≠ _) => H2 H1) Hgive Hkeys).
Qed.

(** What a run of the loop over the lines that ends has built. *)
Lemma for_lines_Ok lines : forall st st',
  for_lines st lines = Ok st' ->
  f_count st' = (f_count st + length lines)%nat ∧
  sqs_folders st' = sqs_folders st ++ (folder_of <$> lines) ∧
  (forall i, (i < f_count st ∨ f_count st + length lines <= i)%nat ->
             sqs_config st' !! i = sqs_config st !! i) ∧
  (forall k eachline, lines !! k = Some eachline ->
     ∃ c, sqs_config st' !! (f_count st + k)%nat = Some c ∧
          configuration c =
            filter (fun key => key ≠ py "level") (key_of <$> fields_of eachline) ∧
          length (occupancies c) = length (configuration c) ∧
          Forall (fun occupancy => occupancy ≠ []) (occupancies c) ∧
          (¬ gives_level eachline ->
           Some (level c) =
           match k with
           | O => leveli st
           | S j => level <$> sqs_config st' !! (f_count st + j)%nat
           end)).
Proof.
  induction lines as [|eachline lines IH]; intros st st' Hrun; cbn [for_lines] in Hrun.
  - injection Hrun as <-. cbn [length fmap list_fmap]. rewrite app_nil_r, Nat.add_0_r.
    repeat split. intros k line Hk. discriminate.
  - destruct (line_body_cases st eachline)
      as [[_ Hbody]|[(_ & _ & _ & Hbody)|(_ & _ & c & Hbody & Hinherit & Hconf & Hlen & Hocc)]];
      rewrite Hbody in Hrun; cbn [mbind result_bind] in Hrun; try discriminate.
    destruct (IH _ _ Hrun) as (Hcount & Hfolders & Hout & Hin).
    cbn [f_count sqs_folders sqs_config leveli] in Hcount, Hfolders, Hout, Hin.
    assert (sqs_config st' !! f_count st = Some c) as Hfirst.
    { rewrite Hout by lia. apply lookup_insert_eq. }
    split; [cbn [length]; lia|]. split; [rewrite Hfolders, <- app_assoc; reflexivity|].
    split.
    + intros i Hi. cbn [length] in Hi. rewrite Hout by lia.
      apply lookup_insert_ne. lia.
    + intros [|k] line Hk; cbn [lookup list_lookup] in Hk.
      * injection Hk as <-. exists c. rewrite Nat.add_0_r.
        split; [exact Hfirst|]. split; [exact Hconf|]. split; [exact Hlen|].
        split; [exact Hocc|]. intros Hno. symmetry. exact (Hinherit Hno).
      * destruct (Hin k line Hk) as (c' & Hc' & Hconf' & Hlen' & Hocc' & Hinherit').
        exists c'. replace (f_count st + S k)%nat with (S (f_count st) + k)%nat by lia.
        split; [exact Hc'|]. split; [exact Hconf'|]. split; [exact Hlen'|].
        split; [exact Hocc'|]. intros Hno. rewrite (Hinherit' Hno).
        destruct k as [|j]; [rewrite Nat.add_0_r, Hfirst; reflexivity|].
        replace (f_count st + S j)%nat with (S (f_count st) + j)%nat by lia. reflexivity.
Qed.

(** When the loop over the lines ends. *)
Lemma for_lines_is_Ok lines : forall st,
  is_Ok (for_lines st lines) <->
  Forall fields_have_values lines ∧
  match lines with
  | [] => True
  | first :: _ => leveli st ≠ None ∨ gives_level first
  end.
Proof.
  induction lines as [|eachline lines IH]; intros st; cbn [for_lines].
  - split; [intros _; split; [constructor | exact I] | intros _; exact I].
  - destruct (line_body_cases st eachline)
      as [[Hbad ->]|[(Hgood & Hnone & Hnogive & ->)|(Hgood & Hlevel & c & -> & _)]];
      cbn [mbind result_bind is_Ok].
    + split; [intros [] | intros [Hall _]; inversion Hall; subst; tauto].
    + split; [intros [] | intros [_ [Hl|Hg]]; tauto].
    + rewrite IH. cbn [leveli]. split.
      * intros [Hall _]. split; [constructor; assumption | exact Hlevel].
      * intros [Hall _]. inversion Hall; subst. split; [assumption|].
        destruct lines; [exact I | left; discriminate].
Qed.

(** White space at either end of a line leaves an empty field there. *)
Lemma re_split_space_nonempty b s : re_split_space b s ≠ [].
Proof.
  revert b; induction s as [|c s IH]; intros b; cbn [re_split_space]; [discriminate|].
  destruct (is_space c); [destruct b; [apply IH | discriminate]|].
  destruct (re_split_space false s); discriminate.
Qed.

Lemma re_split_space_trailing init c : forall b,
  is_space c = true ->
  last (re_split_space b (init ++ [c])) = Some [] ∧
  (b = false -> (2 <= length (re_split_space b (init ++ [c])))%nat).
Proof.
  intros b Hc. revert b. induction init as [|c' init IH]; intros b;
    cbn [app re_split_space].
  - rewrite Hc. destruct b; cbn; split; (reflexivity || discriminate || (intros _; lia)).
  - destruct (is_space c').
    + destruct b; [split; [apply (IH true) | discriminate]|].
      destruct (IH true) as [Hlast _].
      destruct (re_split_space true (init ++ [c])) as [|w ws]; [discriminate|].
      split; [exact Hlast | intros _; cbn [length]; lia].
    + destruct (IH false) as [Hlast Hlen]. specialize (Hlen eq_refl).
      destruct (re_split_space false (init ++ [c])) as [|w [|w' ws]];
        cbn [length] in Hlen; try lia.
      split; [exact Hlast | intros _; cbn [length]; lia].
Qed.

Lemma blank_field eachline :
  strip 10%N eachline = [] ∨
  (∃ c rest, strip 10%N eachline = c :: rest ∧ is_space c = true) ∨
  (∃ init c, strip 10%N eachline = init ++ [c] ∧ is_space c = true) ->
  ¬ fields_have_values eachline.
Proof.
  unfold fields_have_values, fields_of, re_split. intros Hblank Hall.
  assert ([] ∈ re_split_space false (strip 10%N eachline)) as Hin.
  { destruct Hblank as [->|[(c & rest & -> & Hc)|(init & c & -> & Hc)]].
    - left.
    - cbn [re_split_space]. rewrite Hc. left.
    - destruct (re_split_space_trailing init c false Hc) as [Hlast _].
      apply last_Some in Hlast as (l' & ->). apply elem_of_app. right. left. }
  rewrite Forall_forall in Hall. apply Hall in Hin. apply elem_of_nil in Hin. exact Hin.
Qed.

(** The folder name of a line is "sqsdb" and the fields, joined by '_'. *)
Lemma folder_of_join eachline :
  folder_of eachline = join [cp "_"] (py "sqsdb" :: fields_of eachline).
Proof.
  unfold folder_of, fields_of, re_split.
  destruct (re_split_space false (strip 10%N eachline)) as [|w ws] eqn:Hs;
    [exfalso; exact (re_split_space_nonempty _ _ Hs) | reflexivity].
Qed.

Lemma parse_folder_of eachline :
  Forall (fun field => (cp "=" ∈ field) ∧ (cp "_" ∉ field) ∧ key_of field ≠ py "lev")
         (fields_of eachline) ->
  parse_atatsqs_path (folder_of eachline) = Raise UnboundLocalError.
Proof.
  intros Hfields. unfold parse_atatsqs_path. rewrite folder_of_join, split_join.
  - set (st0 := {| level_var := None; configuration_var := []; occupancies_var := [] |}).
    destruct (for_path_params (py "sqsdb" :: fields_of eachline) st0)
      as [[Hbad _]|(_ & st' & -> & _ & Hlevel)].
    + exfalso.
      refine (Exists_Forall_excluded _ (fun part => (cp "=" ∈ part) ∨ part = py "sqsdb")
                _ _ Hbad _).
      * intros x [Hno Hne] [Hin|Heq]; tauto.
      * constructor; [right; reflexivity|].
        eapply Forall_impl; [exact Hfields|]. intros x (Hx & _). left. exact Hx.
    + cbn [mbind result_bind]. rewrite (proj2 Hlevel); [reflexivity|].
      split; [reflexivity|]. constructor; [vm_compute; discriminate|].
      eapply Forall_impl; [exact Hfields|]. intros x (_ & _ & Hx). exact Hx.
  - discriminate.
  - constructor; [apply (bool_decide_unpack _); vm_compute; exact I|].
    eapply Forall_impl; [exact Hfields|]. intros x (_ & Hx & _). exact Hx.
Qed.

End SqsgenFacts.

(** X12: round trip: a path written from a configuration in the format of the
    docstring, "sqsdb_lev=2_a=0.5,0.5_f=0.5,0.5", is parsed back to that
    configuration, when no level, name or occupancy holds a separator, no
    name is "sqsdb" or "lev", and every name has its occupancies. *)
Theorem parse_atatsqs_path_path_of (c : Sqsgen.config) :
  Sqsgen.writable c ->
  Sqsgen.parse_atatsqs_path (Sqsgen.path_of c) = Sqsgen.Ok c.
Proof.
  intros Hc. pose proof (SqsgenFacts.path_of_parts c Hc) as Hparts.
  destruct Hc as (Hlevel & Hnames & Hoccs & Hlen).
  unfold Sqsgen.parse_atatsqs_path, Sqsgen.path_of.
  change (py "_") with [cp "_"]. rewrite split_join; [|discriminate | exact Hparts].
  cbn [Sqsgen.for_fields]. 
  assert (forall st, Sqsgen.path_param_step st (py "sqsdb") = Sqsgen.Ok st) as -> by reflexivity.
  cbn [mbind Sqsgen.result_bind].
  assert (forall st, Sqsgen.path_param_step st (py "lev=" ++ Sqsgen.level c) =
                     Sqsgen.Ok {| Sqsgen.level_var := Some (Sqsgen.level c);
                                  Sqsgen.configuration_var := Sqsgen.configuration_var st;
                                  Sqsgen.occupancies_var := Sqsgen.occupancies_var st |}) as ->.
  { intros st. unfold Sqsgen.path_param_step.
    change (py "lev=" ++ Sqsgen.level c) with (py "lev" ++ cp "=" :: Sqsgen.level c).
    rewrite split_app_sep by (apply (bool_decide_unpack _); vm_compute; exact I).
    rewrite split_no_sep; [reflexivity|].
    inversion Hlevel as [|? ? _ Hrest]; subst. inversion Hrest; subst. assumption. }
  cbn [mbind Sqsgen.result_bind].
  rewrite (SqsgenFacts.for_path_fields _ _ _ Hnames Hoccs Hlen).
  cbn [mbind Sqsgen.result_bind Sqsgen.level_var Sqsgen.read_var
       Sqsgen.configuration_var Sqsgen.occupancies_var app].
  destruct c; reflexivity.
Qed.

Lemma parse_atatsqs_path_path_of_witness :
  Sqsgen.parse_atatsqs_path (py "sqsdb_lev=2_a=0.5,0.5_f=0.5,0.5") =
  Sqsgen.Ok {| Sqsgen.level := py "2";
               Sqsgen.configuration := [py "a"; py "f"];
               Sqsgen.occupancies := [[py "0.5"; py "0.5"]; [py "0.5"; py "0.5"]] |}.
Proof.
  apply (parse_atatsqs_path_path_of
           {| Sqsgen.level := py "2";
              Sqsgen.configuration := [py "a"; py "f"];
              Sqsgen.occupancies := [[py "0.5"; py "0.5"]; [py "0.5"; py "0.5"]] |}).
  apply (bool_decide_unpack _). vm_compute. exact I.
Defined.

(** X13: [parse_atatsqs_path] raises IndexError exactly when a part of the path
    other than "sqsdb" has no '='; failing that, it raises UnboundLocalError
    exactly when no part has the key "lev"; and it returns a configuration in
    every other case. *)
Theorem parse_atatsqs_path_outcomes (atatsqs_path : pystr) :
  (Sqsgen.parse_atatsqs_path atatsqs_path = Sqsgen.Raise Sqsgen.IndexError <->
   Exists (fun part => (cp "=" ∉ part) ∧ part ≠ py "sqsdb") (split (cp "_") atatsqs_path)) ∧
  (Sqsgen.parse_atatsqs_path atatsqs_path = Sqsgen.Raise Sqsgen.UnboundLocalError <->
   Forall (fun part => (cp "=" ∈ part) ∨ part = py "sqsdb") (split (cp "_") atatsqs_path) ∧
   Forall (fun part => Sqsgen.key_of part ≠ py "lev") (split (cp "_") atatsqs_path)) ∧
  (Sqsgen.is_Ok (Sqsgen.parse_atatsqs_path atatsqs_path) <->
   Forall (fun part => (cp "=" ∈ part) ∨ part = py "sqsdb") (split (cp "_") atatsqs_path) ∧
   Exists (fun part => Sqsgen.key_of part = py "lev") (split (cp "_") atatsqs_path)).
Proof.
  unfold Sqsgen.parse_atatsqs_path.
  set (parts := split (cp "_") atatsqs_path).
  set (st0 := {| Sqsgen.level_var := None; Sqsgen.configuration_var := [];
                 Sqsgen.occupancies_var := [] |}).
  assert (∀ P Q : pystr -> Prop, (∀ x, P x -> Q x -> False) ->
            Exists P parts -> Forall Q parts -> False) as Hexcl.
  { intros P Q HPQ HP HQ. apply Exists_exists in HP as (x & Hx & HPx).
    rewrite Forall_forall in HQ. exact (HPQ x HPx (HQ x Hx)). }
  assert (Exists (fun part => (cp "=" ∉ part) ∧ part ≠ py "sqsdb") parts ->
          Forall (fun part => (cp "=" ∈ part) ∨ part = py "sqsdb") parts -> False) as Hbadgood.
  { apply Hexcl. intros x [Hno Hne] [Hin|Heq]; tauto. }
  assert (Exists (fun part => Sqsgen.key_of part = py "lev") parts ->
          Forall (fun part => Sqsgen.key_of part ≠ py "lev") parts -> False) as Hlevkeys.
  { apply Hexcl. intros x Hx Hnx. exact (Hnx Hx). }
  destruct (SqsgenFacts.for_path_params parts st0)
    as [[Hbad ->]|(Hgood & st' & -> & _ & Hlevel)]; cbn [mbind Sqsgen.result_bind].
  - split; [tauto|]. split.
    + split; [discriminate | intros [Hgood _]; exfalso; exact (Hbadgood Hbad Hgood)].
    + split; [intros [] | intros [Hgood _]; exfalso; exact (Hbadgood Hbad Hgood)].
  - cbn [Sqsgen.level_var st0] in Hlevel.
    destruct (Sqsgen.level_var st') as [level|] eqn:Hl;
      cbn [Sqsgen.read_var mbind Sqsgen.result_bind Sqsgen.is_Ok].
    + split; [split; [discriminate | intros Hbad; exfalso; exact (Hbadgood Hbad Hgood)]|].
      split.
      * split; [discriminate|]. intros [_ Hkeys].
        assert (Some level = None) as Habs by (apply Hlevel; tauto). discriminate.
      * split; [intros _ | exact (fun _ => I)]. split; [exact Hgood|].
        destruct (decide (Exists (fun part => Sqsgen.key_of part = py "lev") parts))
          as [Hlev|Hnolev]; [exact Hlev|].
        assert (Some level = None) as Habs; [|discriminate].
        apply Hlevel. split; [reflexivity|].
        apply not_Exists_Forall in Hnolev; [|intros x; apply _].
        eapply Forall_impl; [exact Hnolev|]. intros x Hx Heq. exact (Hx Heq).
    + destruct (proj1 Hlevel eq_refl) as [_ Hkeys].
      split; [split; [discriminate | intros Hbad; exfalso; exact (Hbadgood Hbad Hgood)]|].
      split; [split; [intros _; split; assumption | reflexivity]|].
      split; [intros [] | intros [_ Hlev]; exfalso; exact (Hlevkeys Hlev Hkeys)].
Qed.

(** X14: what [parse_atatsqs_path] returns: the names are the keys of the parts
    of the path, in order, without "sqsdb" and "lev", and every name comes
    with one list of occupancies, which is never empty. *)
Theorem parse_atatsqs_path_configuration (atatsqs_path : pystr) (c : Sqsgen.config) :
  Sqsgen.parse_atatsqs_path atatsqs_path = Sqsgen.Ok c ->
  Sqsgen.configuration c =
    filter (fun key => key ≠ py "sqsdb" ∧ key ≠ py "lev")
           (Sqsgen.key_of <$> split (cp "_") atatsqs_path) ∧
  length (Sqsgen.occupancies c) = length (Sqsgen.configuration c) ∧
  Forall (fun occupancy => occupancy ≠ []) (Sqsgen.occupancies c).
Proof.
  unfold Sqsgen.parse_atatsqs_path. intros Hparse.
  set (st0 := {| Sqsgen.level_var := None; Sqsgen.configuration_var := [];
                 Sqsgen.occupancies_var := [] |}) in Hparse.
  destruct (Sqsgen.for_fields Sqsgen.path_param_step st0 (split (cp "_") atatsqs_path))
    as [st'|e] eqn:Hrun; [|discriminate].
  cbn [mbind Sqsgen.result_bind] in Hparse.
  destruct (Sqsgen.level_var st') as [level|]; [|discriminate].
  injection Hparse as <-. cbn [Sqsgen.configuration Sqsgen.occupancies].
  split; [exact (SqsgenFacts.for_path_params_names _ _ _ Hrun)|].
  destruct (SqsgenFacts.for_path_params (split (cp "_") atatsqs_path) st0)
    as [[_ Hraise]|(_ & st'' & Hrun' & Hext & _)]; [congruence|].
  assert (st'' = st') as -> by congruence.
  destruct Hext as (names & occs & -> & -> & Hlen & Hocc). split; [symmetry; exact Hlen | exact Hocc].
Qed.

Lemma parse_atatsqs_path_configuration_witness :
  let c := {| Sqsgen.level := py "2";
              Sqsgen.configuration := [py "a"; py "f"];
              Sqsgen.occupancies := [[py "0.5"; py "0.5"]; [py "0.5"; py "0.5"]] |} in
  Sqsgen.configuration c =
    filter (fun key => key ≠ py "sqsdb" ∧ key ≠ py "lev")
           (Sqsgen.key_of <$> split (cp "_") (py "sqsdb_lev=2_a=0.5,0.5_f=0.5,0.5")) ∧
  length (Sqsgen.occupancies c) = length (Sqsgen.configuration c) ∧
  Forall (fun occupancy => occupancy ≠ []) (Sqsgen.occupancies c).
Proof.
  apply (parse_atatsqs_path_configuration (py "sqsdb_lev=2_a=0.5,0.5_f=0.5,0.5")).
  vm_compute. reflexivity.
Defined.

(** X15: [read_sqsgen_in] returns exactly when every field of every line holds
    a '=' and, if the file has a line at all, a field of the first line has
    the key "level". *)
Theorem read_sqsgen_in_returns (sqsgen_in : pystr) :
  Sqsgen.is_Ok (Sqsgen.read_sqsgen_in sqsgen_in) <->
  Forall Sqsgen.fields_have_values (Sqsgen.readlines (Sqsgen.universal_newlines sqsgen_in)) ∧
  match Sqsgen.readlines (Sqsgen.universal_newlines sqsgen_in) with
  | [] => True
  | first :: _ => Sqsgen.gives_level first
  end.
Proof.
  unfold Sqsgen.read_sqsgen_in.
  set (st0 := {| Sqsgen.f_count := O; Sqsgen.sqs_folders := []; Sqsgen.sqs_config := ∅;
                 Sqsgen.leveli := None |}).
  pose proof (SqsgenFacts.for_lines_is_Ok
                (Sqsgen.readlines (Sqsgen.universal_newlines sqsgen_in)) st0) as Hiff.
  destruct (Sqsgen.for_lines st0 (Sqsgen.readlines (Sqsgen.universal_newlines sqsgen_in)))
    as [st'|e]; cbn [mbind Sqsgen.result_bind Sqsgen.is_Ok] in *;
    destruct (Sqsgen.readlines (Sqsgen.universal_newlines sqsgen_in)) as [|first rest];
    cbn [Sqsgen.leveli st0] in Hiff; intuition congruence.
Qed.

(** X16: a line of sqsgen.in that is empty, or that starts or ends with white
    space (the line feed apart), makes [read_sqsgen_in] raise: the empty
    field it leaves has no '='. *)
Theorem read_sqsgen_in_white_space_raises (sqsgen_in eachline : pystr) :
  eachline ∈ Sqsgen.readlines (Sqsgen.universal_newlines sqsgen_in) ->
  Sqsgen.strip 10%N eachline = [] ∨
  (∃ c rest, Sqsgen.strip 10%N eachline = c :: rest ∧ Sqsgen.is_space c = true) ∨
  (∃ init c, Sqsgen.strip 10%N eachline = init ++ [c] ∧ Sqsgen.is_space c = true) ->
  ∃ e, Sqsgen.read_sqsgen_in sqsgen_in = Sqsgen.Raise e.
Proof.
  intros Hline Hblank. apply SqsgenFacts.blank_field in Hblank.
  unfold Sqsgen.read_sqsgen_in.
  set (st0 := {| Sqsgen.f_count := O; Sqsgen.sqs_folders := []; Sqsgen.sqs_config := ∅;
                 Sqsgen.leveli := None |}).
  pose proof (SqsgenFacts.for_lines_is_Ok
                (Sqsgen.readlines (Sqsgen.universal_newlines sqsgen_in)) st0) as Hiff.
  destruct (Sqsgen.for_lines st0 (Sqsgen.readlines (Sqsgen.universal_newlines sqsgen_in)))
    as [st'|e]; cbn [mbind Sqsgen.result_bind]; [|exists e; reflexivity].
  exfalso. destruct (proj1 Hiff I) as [Hall _].
  rewrite Forall_forall in Hall. exact (Hblank (Hall _ Hline)).
Qed.

Lemma read_sqsgen_in_white_space_raises_witness :
  ∃ e, Sqsgen.read_sqsgen_in (lines ["level=1 a=0.5,0.5"; ""; ""]) = Sqsgen.Raise e.
Proof.
  apply (read_sqsgen_in_white_space_raises _ [10%N]).
  - apply (bool_decide_unpack _). vm_compute. exact I.
  - left. reflexivity.
Defined.

(** X17: what [read_sqsgen_in] returns: one folder name per line, in order, and
    one configuration per line, under the number of the line counted from 0;
    its names are the keys of the fields of the line other than "level", each
    with one list of occupancies, never empty. *)
Theorem read_sqsgen_in_numbers_the_lines (sqsgen_in : pystr)
    (folders : list pystr) (configs : gmap nat Sqsgen.config) :
  Sqsgen.read_sqsgen_in sqsgen_in = Sqsgen.Ok (folders, configs) ->
  folders = Sqsgen.folder_of <$> Sqsgen.readlines (Sqsgen.universal_newlines sqsgen_in) ∧
  (forall n, is_Some (configs !! n) <->
             (n < length (Sqsgen.readlines (Sqsgen.universal_newlines sqsgen_in)))%nat) ∧
  (forall n eachline,
     Sqsgen.readlines (Sqsgen.universal_newlines sqsgen_in) !! n = Some eachline ->
     ∃ c, configs !! n = Some c ∧
          Sqsgen.configuration c =
            filter (fun key => key ≠ py "level")
                   (Sqsgen.key_of <$> Sqsgen.fields_of eachline) ∧
          length (Sqsgen.occupancies c) = length (Sqsgen.configuration c) ∧
          Forall (fun occupancy => occupancy ≠ []) (Sqsgen.occupancies c)).
Proof.
  unfold Sqsgen.read_sqsgen_in.
  set (st0 := {| Sqsgen.f_count := O; Sqsgen.sqs_folders := []; Sqsgen.sqs_config := ∅;
                 Sqsgen.leveli := None |}).
  set (file := Sqsgen.readlines (Sqsgen.universal_newlines sqsgen_in)).
  destruct (Sqsgen.for_lines st0 file) as [st'|e] eqn:Hrun; [|discriminate].
  cbn [mbind Sqsgen.result_bind]. intros [= <- <-].
  destruct (SqsgenFacts.for_lines_Ok _ _ _ Hrun) as (_ & Hfolders & Hout & Hin).
  cbn [Sqsgen.f_count Sqsgen.sqs_folders Sqsgen.sqs_config st0 app Nat.add] in Hfolders, Hout, Hin.
  split; [exact Hfolders|]. split.
  - intros n. split.
    + intros Hsome. destruct (Nat.lt_ge_cases n (length file)) as [Hlt|Hge]; [exact Hlt|].
      rewrite Hout, lookup_empty in Hsome by (right; exact Hge).
      destruct Hsome as [c Hc]. discriminate.
    + intros Hlt. apply lookup_lt_is_Some in Hlt as [eachline Hline].
      destruct (Hin n eachline Hline) as (c & Hc & _). exists c. exact Hc.
  - intros n eachline Hline. destruct (Hin n eachline Hline) as (c & Hc & Hconf & Hlen & Hocc & _).
    exists c. repeat split; assumption.
Qed.

Lemma read_sqsgen_in_numbers_the_lines_witness :
  let sqsgen_in := lines ["level=0 a=1"; "level=1 a=0.5,0.5"; ""] in
  let folders := [py "sqsdb_level=0_a=1"; py "sqsdb_level=1_a=0.5,0.5"] in
  let configs : gmap nat Sqsgen.config :=
    <[1%nat := {| Sqsgen.level := py "1"; Sqsgen.configuration := [py "a"];
                  Sqsgen.occupancies := [[py "0.5"; py "0.5"]] |}]>
      (<[0%nat := {| Sqsgen.level := py "0"; Sqsgen.configuration := [py "a"];
                     Sqsgen.occupancies := [[py "1"]] |}]> ∅) in
  folders = Sqsgen.folder_of <$> Sqsgen.readlines (Sqsgen.universal_newlines sqsgen_in) ∧
  (forall n, is_Some (configs !! n) <->
             (n < length (Sqsgen.readlines (Sqsgen.universal_newlines sqsgen_in)))%nat) ∧
  (forall n eachline,
     Sqsgen.readlines (Sqsgen.universal_newlines sqsgen_in) !! n = Some eachline ->
     ∃ c, configs !! n = Some c ∧
          Sqsgen.configuration c =
            filter (fun key => key ≠ py "level")
                   (Sqsgen.key_of <$> Sqsgen.fields_of eachline) ∧
          length (Sqsgen.occupancies c) = length (Sqsgen.configuration c) ∧
          Forall (fun occupancy => occupancy ≠ []) (Sqsgen.occupancies c)).
Proof.
  apply (read_sqsgen_in_numbers_the_lines (lines ["level=0 a=1"; "level=1 a=0.5,0.5"; ""])).
  vm_compute. reflexivity.
Defined.

(** X18: the level is kept from one line to the next: a line with no field
    "level" gets the level of the line before it. *)
Theorem read_sqsgen_in_level_is_inherited (sqsgen_in : pystr)
    (folders : list pystr) (configs : gmap nat Sqsgen.config) (n : nat) (eachline : pystr) :
  Sqsgen.read_sqsgen_in sqsgen_in = Sqsgen.Ok (folders, configs) ->
  Sqsgen.readlines (Sqsgen.universal_newlines sqsgen_in) !! S n = Some eachline ->
  ¬ Sqsgen.gives_level eachline ->
  ∃ c c', configs !! n = Some c ∧ configs !! S n = Some c' ∧
          Sqsgen.level c' = Sqsgen.level c.
Proof.
  unfold Sqsgen.read_sqsgen_in.
  set (st0 := {| Sqsgen.f_count := O; Sqsgen.sqs_folders := []; Sqsgen.sqs_config := ∅;
                 Sqsgen.leveli := None |}).
  set (file := Sqsgen.readlines (Sqsgen.universal_newlines sqsgen_in)).
  destruct (Sqsgen.for_lines st0 file) as [st'|e] eqn:Hrun; [|discriminate].
  cbn [mbind Sqsgen.result_bind]. intros [= <- <-] Hline Hnolevel.
  destruct (SqsgenFacts.for_lines_Ok _ _ _ Hrun) as (_ & _ & _ & Hin).
  cbn [Sqsgen.f_count st0 Nat.add] in Hin.
  destruct (Hin (S n) eachline Hline) as (c' & Hc' & _ & _ & _ & Hinherit).
  specialize (Hinherit Hnolevel).
  destruct (Sqsgen.sqs_config st' !! n) as [c|] eqn:Hc; [|discriminate].
  exists c, c'. injection Hinherit as Heq. repeat split; assumption.
Qed.

Lemma read_sqsgen_in_level_is_inherited_witness :
  let configs : gmap nat Sqsgen.config :=
    <[1%nat := {| Sqsgen.level := py "2"; Sqsgen.configuration := [py "a"];
                  Sqsgen.occupancies := [[py "0.75"; py "0.25"]] |}]>
      (<[0%nat := {| Sqsgen.level := py "2"; Sqsgen.configuration := [py "a"];
                     Sqsgen.occupancies := [[py "0.5"; py "0.5"]] |}]> ∅) in
  ∃ c c', configs !! 0%nat = Some c ∧ configs !! 1%nat = Some c' ∧
          Sqsgen.level c' = Sqsgen.level c.
Proof.
  apply (read_sqsgen_in_level_is_inherited
           (lines ["level=2 a=0.5,0.5"; "a=0.75,0.25"; ""])
           [py "sqsdb_level=2_a=0.5,0.5"; py "sqsdb_a=0.75,0.25"] _ 0 (py "a=0.75,0.25" ++ [10%N])).
  - vm_compute. reflexivity.
  - vm_compute. reflexivity.
  - intros Hgives. revert Hgives. apply (bool_decide_unpack (¬ _)). vm_compute. exact I.
Defined.

(** X19: the folder names that [read_sqsgen_in] returns are not paths that
    [parse_atatsqs_path] reads: the one writes the key "level" where the
    other looks for "lev", so that the level is never bound. *)
Theorem read_sqsgen_in_folders_are_not_parsed (sqsgen_in : pystr)
    (folders : list pystr) (configs : gmap nat Sqsgen.config) :
  Sqsgen.read_sqsgen_in sqsgen_in = Sqsgen.Ok (folders, configs) ->
  Forall (fun eachline =>
            Forall (fun field => (cp "_" ∉ field) ∧ Sqsgen.key_of field ≠ py "lev")
                   (Sqsgen.fields_of eachline))
         (Sqsgen.readlines (Sqsgen.universal_newlines sqsgen_in)) ->
  Forall (fun folder => Sqsgen.parse_atatsqs_path folder =
                        Sqsgen.Raise Sqsgen.UnboundLocalError) folders.
Proof.
  unfold Sqsgen.read_sqsgen_in.
  set (st0 := {| Sqsgen.f_count := O; Sqsgen.sqs_folders := []; Sqsgen.sqs_config := ∅;
                 Sqsgen.leveli := None |}).
  set (file := Sqsgen.readlines (Sqsgen.universal_newlines sqsgen_in)).
  pose proof (SqsgenFacts.for_lines_is_Ok file st0) as Hiff.
  destruct (Sqsgen.for_lines st0 file) as [st'|e] eqn:Hrun; [|discriminate].
  cbn [mbind Sqsgen.result_bind]. intros [= <- <-] Hfields.
  destruct (SqsgenFacts.for_lines_Ok _ _ _ Hrun) as (_ & -> & _).
  destruct (proj1 Hiff I) as [Hvalues _].
  cbn [Sqsgen.sqs_folders st0 app]. apply Forall_fmap.
  rewrite Forall_forall in Hfields, Hvalues. apply Forall_forall. intros eachline Hline.
  apply SqsgenFacts.parse_folder_of.
  specialize (Hfields _ Hline). specialize (Hvalues _ Hline).
  unfold Sqsgen.fields_have_values in Hvalues.
  rewrite Forall_forall in Hfields, Hvalues. apply Forall_forall. intros field Hfield.
  destruct (Hfields _ Hfield). split; [apply Hvalues; exact Hfield | split; assumption].
Qed.

Lemma read_sqsgen_in_folders_are_not_parsed_witness :
  Forall (fun folder => Sqsgen.parse_atatsqs_path folder =
                        Sqsgen.Raise Sqsgen.UnboundLocalError)
         [py "sqsdb_level=0_a=1"; py "sqsdb_level=1_a=0.5,0.5"].
Proof.
  apply (read_sqsgen_in_folders_are_not_parsed
           (lines ["level=0 a=1"; "level=1 a=0.5,0.5"; ""]) _
           (<[1%nat := {| Sqsgen.level := py "1"; Sqsgen.configuration := [py "a"];
                          Sqsgen.occupancies := [[py "0.5"; py "0.5"]] |}]>
              (<[0%nat := {| Sqsgen.level := py "0"; Sqsgen.configuration := [py "a"];
                             Sqsgen.occupancies := [[py "1"]] |}]> ∅))).
  - vm_compute. reflexivity.
  - apply (bool_decide_unpack _). vm_compute. exact I.
Defined.
